(** * shared-game-utils.js: fault reporter, accessibility annotator, sampler

  A shallow embedding of the three classes of [src/shared-game-utils.js]
  ([GameErrorHandler], [GameAccessibility], [GamePerformanceMonitor]) and
  the properties of their bounded histories, label fallbacks, live region
  and [init] guards.

  Conventions of the embedding.
  - A JS array is a [list]; [push] appends at the end, [shift] drops the
    head, [slice(-n)] keeps the last [n] entries.
  - A JS string is a [string] holding its UTF-8 bytes; the empty string is
    the only falsy string, as in JS.
  - Mutable objects become records that are passed in and returned.  The
    browser objects a method touches (window listeners, the document, the
    timer queue, the console) are an explicit environment record.
  - [performance.now()] is a rational number of milliseconds ([Q]), and the
    divisions the sampler performs are exact.  [Math.round] rounds to the
    nearest integer with ties towards plus infinity. *)

From Stdlib Require Import String Ascii Bool Arith ZArith QArith Qround Lia Lqa List.
From Stdlib Require Import DecimalString.
Import ListNotations.

Local Open Scope string_scope.
Local Open Scope nat_scope.
Local Open Scope list_scope.

(** ** JavaScript arrays *)

Module JSArray.

Section Ops.
Context {A : Type}.

(** [a.push(x)] *)
Definition push (a : list A) (x : A) : list A := a ++ [x].

(** [a.shift()]: removes the first entry (nothing on an empty array). *)
Definition shift (a : list A) : list A := tl a.

(** [a.slice(-n)]: the last [n] entries, all of them when there are
    fewer. *)
Definition slice_last (n : nat) (a : list A) : list A :=
  skipn (length a - n) a.

(** The idiom used for all three histories:
    [a.push(x); if (a.length > cap) a.shift();] *)
Definition push_capped (cap : nat) (a : list A) (x : A) : list A :=
  let a1 := push a x in
  if cap <? length a1 then shift a1 else a1.


End Ops.

End JSArray.

(** ** Console output, kept as structured events *)

Inductive ConsoleLevel := LevelLog | LevelWarn | LevelError.

Record ConsoleEntry := mkEntry {
entry_level : ConsoleLevel;
entry_text : string
}.

Definition Console := list ConsoleEntry.

(** ** Fault reporter: [class GameErrorHandler] *)

Module ErrorHandler.
Import JSArray.

(** The value handed to [handleError]: an [Error] object carries a message
    and a stack, anything else is rendered with [String(error)]. *)
Inductive JSValue :=
| ErrorObject (message : string) (stack : option string)
| OtherValue (rendered : string).

Record ErrorInfo := mkErrorInfo {
  timestamp : string;
  game : string;
  source : string;
  message : string;
  stack : option string
}.

Record t := mkHandler {
  gameName : string;
  errors : list ErrorInfo;
  maxErrors : nat;
  initialized : bool
}.

(** The browser state [init] and [handleError] act on. *)
Record Window := mkWindow {
  listeners : list string;       (* window.addEventListener(type, ...) *)
  fillRectWrappers : nat;        (* layers around prototype.fillRect *)
  drawImageWrappers : nat;
  clearRectWrappers : nat;
  rafWrappers : nat;             (* layers around requestAnimationFrame *)
  console : Console
}.

(** [constructor(gameName = '未知遊戲')] *)
Definition default_name : string := "未知遊戲".

Definition new (name : option string) : t :=
  {| gameName := match name with Some n => n | None => default_name end;
     errors := [];
     maxErrors := 50;
     initialized := false |}.

Definition set_errors (h : t) (es : list ErrorInfo) : t :=
  {| gameName := gameName h; errors := es;
     maxErrors := maxErrors h; initialized := initialized h |}.

Definition set_initialized (h : t) (b : bool) : t :=
  {| gameName := gameName h; errors := errors h;
     maxErrors := maxErrors h; initialized := b |}.

Definition log (lvl : ConsoleLevel) (txt : string) (w : Window) : Window :=
  {| listeners := listeners w;
     fillRectWrappers := fillRectWrappers w;
     drawImageWrappers := drawImageWrappers w;
     clearRectWrappers := clearRectWrappers w;
     rafWrappers := rafWrappers w;
     console := console w ++ [mkEntry lvl txt] |}.

(** The record built at the top of [handleError]; [now] is
    [new Date().toISOString()]. *)
Definition make_info (h : t) (now : string) (error : JSValue)
    (src : string) : ErrorInfo :=
  {| timestamp := now;
     game := gameName h;
     source := src;
     message := match error with
                | ErrorObject m _ => m
                | OtherValue r => r
                end;
     stack := match error with
              | ErrorObject _ s => s
              | OtherValue _ => None
              end |}.

(** [handleError(error, source = 'unknown')] *)
Definition handleError (now : string) (error : JSValue)
    (src : option string) (h : t) (w : Window) : ErrorInfo * t * Window :=
  let src := match src with Some s => s | None => "unknown" end in
  let errorInfo := make_info h now error src in
  let es := push (errors h) errorInfo in
  let es := if maxErrors h <? length es then shift es else es in
  (errorInfo, set_errors h es,
   log LevelError ("[" ++ gameName h ++ "] 錯誤 (" ++ src ++ "):")%string w).

(** [patchCanvasMethods()]: each call wraps the three prototype methods in
    one more try/catch layer. *)
Definition patchCanvasMethods (w : Window) : Window :=
  {| listeners := listeners w;
     fillRectWrappers := S (fillRectWrappers w);
     drawImageWrappers := S (drawImageWrappers w);
     clearRectWrappers := S (clearRectWrappers w);
     rafWrappers := rafWrappers w;
     console := console w |}.

(** [patchRequestAnimationFrame()] *)
Definition patchRequestAnimationFrame (w : Window) : Window :=
  {| listeners := listeners w;
     fillRectWrappers := fillRectWrappers w;
     drawImageWrappers := drawImageWrappers w;
     clearRectWrappers := clearRectWrappers w;
     rafWrappers := S (rafWrappers w);
     console := console w |}.

Definition addEventListener (type : string) (w : Window) : Window :=
  {| listeners := listeners w ++ [type];
     fillRectWrappers := fillRectWrappers w;
     drawImageWrappers := drawImageWrappers w;
     clearRectWrappers := clearRectWrappers w;
     rafWrappers := rafWrappers w;
     console := console w |}.

(** [init()] *)
Definition init (h : t) (w : Window) : t * Window :=
  if initialized h then (h, w)
  else
    let w := addEventListener "error" w in
    let w := addEventListener "unhandledrejection" w in
    let w := patchCanvasMethods w in
    let w := patchRequestAnimationFrame w in
    let h := set_initialized h true in
    (h, log LevelLog ("[" ++ gameName h ++ "] 錯誤處理已初始化")%string w).

(** [bySource]: the object built by [reduce], as an association list in
    key insertion order. *)
Fixpoint bump (key : string) (acc : list (string * nat))
    : list (string * nat) :=
  match acc with
  | [] => [(key, 1)]
  | (k, n) :: rest =>
      if String.eqb k key then (k, S n) :: rest
      else (k, n) :: bump key rest
  end.

Record ErrorStats := mkStats {
  total : nat;
  recent : list ErrorInfo;
  bySource : list (string * nat)
}.

(** [getErrorStats()] *)
Definition getErrorStats (h : t) : ErrorStats :=
  {| total := length (errors h);
     recent := slice_last 10 (errors h);
     bySource := fold_left (fun acc e => bump (source e) acc) (errors h) [] |}.

(** [clearErrors()] *)
Definition clearErrors (h : t) : t := set_errors h [].

(** A captured fault: the clock reading, the thrown value and the source
    tag of one [handleError] call. *)
Record Fault := mkFault {
  fault_time : string;
  fault_value : JSValue;
  fault_source : option string
}.

Definition capture (st : t * Window) (f : Fault) : t * Window :=
  let '(_, h, w) :=
    handleError (fault_time f) (fault_value f) (fault_source f) (fst st) (snd st)
  in (h, w).

(** The handler after a sequence of [handleError] calls. *)
Definition capture_all (fs : list Fault) (st : t * Window) : t * Window :=
  fold_left capture fs st.

(** The record [handleError] stores (and returns) for a fault. *)
Definition record_of (name : string) (f : Fault) : ErrorInfo :=
  {| timestamp := fault_time f;
     game := name;
     source := match fault_source f with Some s => s | None => "unknown" end;
     message := match fault_value f with
                | ErrorObject m _ => m
                | OtherValue r => r
                end;
     stack := match fault_value f with
              | ErrorObject _ s => s
              | OtherValue _ => None
              end |}.

(** *** Vocabulary of the further properties *)

(** [acc[key] || 0] on the object built by [reduce]. *)
Fixpoint count_of (key : string) (acc : list (string * nat)) : nat :=
  match acc with
  | [] => 0
  | (k, n) :: rest => if String.eqb k key then n else count_of key rest
  end.

(** The stored records that carry the source tag [key]. *)
Definition count_source (key : string) (es : list ErrorInfo) : nat :=
  length (filter (fun e => String.eqb (source e) key) es).

(** The names every object inherits from [Object.prototype].  For such a
    key [acc[key]] is not [undefined] on the empty object [reduce] starts
    from, so the entry of [bySource] is not a count; [bump] describes the
    other keys. *)
Definition inherited_key (key : string) : bool :=
  existsb (String.eqb key)
    ["constructor"; "toString"; "toLocaleString"; "valueOf";
     "hasOwnProperty"; "isPrototypeOf"; "propertyIsEnumerable"; "__proto__";
     "__defineGetter__"; "__defineSetter__"; "__lookupGetter__";
     "__lookupSetter__"].

(** *** The patched [requestAnimationFrame] *)

(** A frame callback, scheduled through the patched
    [window.requestAnimationFrame], runs.  [hs] are the handlers whose
    [init] patched the scheduler, in the order of their [init] calls: each
    patch wraps the callback it is given before handing it to the
    scheduler it replaced, so the handler that patched last is the
    innermost [try].  [outcome] is what the callback itself does: [None]
    when it returns, [Some error] when it throws.  The result gives the
    handlers, the page, and the value that escapes all the wrappers. *)
Fixpoint run_frame_callback (hs : list t) (outcome : option JSValue)
    (now : string) (w : Window) : list t * Window * option JSValue :=
  match hs with
  | [] => ([], w, outcome)
  | h :: inner =>
      let '(inner1, w1, escaped) := run_frame_callback inner outcome now w in
      match escaped with
      | Some error =>
          let '(_, h1, w2) :=
            handleError now error (Some "requestAnimationFrame") h w1 in
          (h1 :: inner1, w2, None)
      | None => (h :: inner1, w1, None)
      end
  end.

End ErrorHandler.

(** ** Sampler: [class GamePerformanceMonitor] *)

Module PerformanceMonitor.
Import JSArray.

(** [Math.round]: nearest integer, a tie goes up. *)
Definition Math_round (x : Q) : Z := Qfloor (x + (1 # 2)).

(** Decimal rendering of an integer inside a template string. *)
Definition show_Z (z : Z) : string :=
  DecimalString.NilZero.string_of_int (Z.to_int z).

(** [performance.memory] *)
Record MemoryInfo := mkMemoryInfo {
  usedJSHeapSize : Z;
  totalJSHeapSize : Z;
  jsHeapSizeLimit : Z
}.

(** One entry of [metrics.memory]. *)
Record MemorySample := mkMemorySample {
  sample_used : Z;
  sample_total : Z;
  sample_limit : Z;
  sample_timestamp : Z
}.

Record Metrics := mkMetrics {
  fps : list Z;
  memory : list MemorySample;
  loadTime : option Q
}.

Record t := mkMonitor {
  gameName : string;
  metrics : Metrics;
  frameCount : Z;
  lastTime : Q;
  initialized : bool
}.

(** The scheduling state of the page: queued [measureFPS] callbacks,
    registered memory intervals, console. *)
Record Env := mkEnv {
  rafQueue : nat;
  intervals : nat;
  console : Console
}.

Definition default_name : string := "未知遊戲".

(** [constructor(gameName = '未知遊戲')]; [now] is [performance.now()]. *)
Definition new (name : option string) (now : Q) : t :=
  {| gameName := match name with Some n => n | None => default_name end;
     metrics := {| fps := []; memory := []; loadTime := None |};
     frameCount := 0%Z;
     lastTime := now;
     initialized := false |}.

Definition warn (txt : string) (e : Env) : Env :=
  {| rafQueue := rafQueue e; intervals := intervals e;
     console := console e ++ [mkEntry LevelWarn txt] |}.

Definition requestAnimationFrame (e : Env) : Env :=
  {| rafQueue := S (rafQueue e); intervals := intervals e;
     console := console e |}.

Definition setInterval (e : Env) : Env :=
  {| rafQueue := rafQueue e; intervals := S (intervals e);
     console := console e |}.

(** The closure [measureFPS] of [startFPSMonitoring], called with the
    clock reading [currentTime]. *)
Definition measureFPS (currentTime : Q) (m : t) (e : Env) : t * Env :=
  let count := (frameCount m + 1)%Z in
  let elapsed := (currentTime - lastTime m)%Q in
  let '(m1, e1) :=
    if Qle_bool 1000 elapsed then
      let fps1 := Math_round ((inject_Z count * 1000) / elapsed)%Q in
      let series := push (fps (metrics m)) fps1 in
      let series := if 60 <? length series then shift series else series in
      ({| gameName := gameName m;
          metrics := {| fps := series;
                        memory := memory (metrics m);
                        loadTime := loadTime (metrics m) |};
          frameCount := 0%Z;
          lastTime := currentTime;
          initialized := initialized m |},
       if (fps1 <? 30)%Z
       then warn ("[" ++ gameName m ++ "] 低FPS警告: " ++ show_Z fps1)%string e
       else e)
    else
      ({| gameName := gameName m;
          metrics := metrics m;
          frameCount := count;
          lastTime := lastTime m;
          initialized := initialized m |}, e)
  in (m1, requestAnimationFrame e1).

(** [startFPSMonitoring()]: queues the first [measureFPS]. *)
Definition startFPSMonitoring (e : Env) : Env := requestAnimationFrame e.

(** The browser runs one queued [measureFPS] callback. *)
Definition frame (currentTime : Q) (st : t * Env) : t * Env :=
  match rafQueue (snd st) with
  | O => st
  | S q =>
      measureFPS currentTime (fst st)
        {| rafQueue := q; intervals := intervals (snd st);
           console := console (snd st) |}
  end.

(** [usedJSHeapSize / jsHeapSizeLimit > 0.8], with the JS results of a
    division by zero (an infinity or NaN). *)
Definition usage_high (used limit : Z) : bool :=
  if (limit =? 0)%Z then (0 <? used)%Z
  else negb (Qle_bool (inject_Z used / inject_Z limit) (8 # 10)).

Definition usage_percent (used limit : Z) : string :=
  if (limit =? 0)%Z then "Infinity"
  else show_Z (Math_round ((inject_Z used / inject_Z limit) * 100)%Q).

(** The callback of [startMemoryMonitoring]; [reading] is
    [performance.memory] ([None] when reading it throws, which the
    [catch] discards) and [now] is [Date.now()]. *)
Definition memoryTick (reading : option MemoryInfo) (now : Z)
    (m : t) (e : Env) : t * Env :=
  match reading with
  | None => (m, e)
  | Some mem =>
      let series :=
        push (memory (metrics m))
             {| sample_used := usedJSHeapSize mem;
                sample_total := totalJSHeapSize mem;
                sample_limit := jsHeapSizeLimit mem;
                sample_timestamp := now |} in
      let series := if 60 <? length series then shift series else series in
      ({| gameName := gameName m;
          metrics := {| fps := fps (metrics m);
                        memory := series;
                        loadTime := loadTime (metrics m) |};
          frameCount := frameCount m;
          lastTime := lastTime m;
          initialized := initialized m |},
       if usage_high (usedJSHeapSize mem) (jsHeapSizeLimit mem)
       then warn ("[" ++ gameName m ++ "] 高內存使用警告: "
                  ++ usage_percent (usedJSHeapSize mem) (jsHeapSizeLimit mem)
                  ++ "%")%string e
       else e)
  end.

(** [startMemoryMonitoring()] *)
Definition startMemoryMonitoring (e : Env) : Env := setInterval e.

(** [init()]; [now] is [performance.now()], [hasMemory] the truthiness of
    [performance.memory]. *)
Definition init (now : Q) (hasMemory : bool) (m : t) (e : Env) : t * Env :=
  if initialized m then (m, e)
  else
    let mt := {| fps := fps (metrics m);
                 memory := memory (metrics m);
                 loadTime := Some now |} in
    let e := startFPSMonitoring e in
    let e := if hasMemory then startMemoryMonitoring e else e in
    ({| gameName := gameName m;
        metrics := mt;
        frameCount := frameCount m;
        lastTime := lastTime m;
        initialized := true |},
     {| rafQueue := rafQueue e; intervals := intervals e;
        console := console e ++
          [mkEntry LevelLog ("[" ++ gameName m ++ "] 性能監控已初始化")%string] |}).

(** [fps.reduce((a, b) => a + b, 0)] *)
Definition sum (l : list Z) : Z := fold_left Z.add l 0%Z.

(** [Math.min(...fps)] and [Math.max(...fps)] on a non-empty array. *)
Definition Math_min (l : list Z) : Z :=
  match l with
  | [] => 0%Z
  | x :: r => fold_left Z.min r x
  end.

Definition Math_max (l : list Z) : Z :=
  match l with
  | [] => 0%Z
  | x :: r => fold_left Z.max r x
  end.

Record Report := mkReport {
  report_game : string;
  report_loadTime : option Q;
  currentFPS : Z;
  averageFPS : Z;
  minFPS : Z;
  maxFPS : Z;
  fpsSamples : nat;
  memorySamples : nat;
  lastMemory : option MemorySample
}.

(** [getPerformanceReport()] *)
Definition getPerformanceReport (m : t) : Report :=
  let fps := fps (metrics m) in
  let avgFPS :=
    if 0 <? length fps
    then Math_round (inject_Z (sum fps) / inject_Z (Z.of_nat (length fps)))%Q
    else 0%Z in
  let minFPS := if 0 <? length fps then Math_min fps else 0%Z in
  let maxFPS := if 0 <? length fps then Math_max fps else 0%Z in
  {| report_game := gameName m;
     report_loadTime := loadTime (metrics m);
     currentFPS := if 0 <? length fps then last fps 0%Z else 0%Z;
     averageFPS := avgFPS;
     minFPS := minFPS;
     maxFPS := maxFPS;
     fpsSamples := length fps;
     memorySamples := length (memory (metrics m));
     lastMemory := if 0 <? length (memory (metrics m))
                   then Some (last (memory (metrics m))
                                   (mkMemorySample 0 0 0 0))
                   else None |}.

Definition suggestion_low_fps : string :=
  "遊戲FPS較低，建議降低圖形質量或關閉其他應用程式".
Definition suggestion_very_low_fps : string :=
  "遊戲FPS非常低，可能影響遊戲體驗".
Definition suggestion_high_memory : string :=
  "遊戲內存使用較高，建議定期重啟遊戲".

(** [getPerformanceSuggestions()] *)
Definition getPerformanceSuggestions (m : t) : list string :=
  let report := getPerformanceReport m in
  let suggestions := [] in
  let suggestions :=
    if (averageFPS report <? 30)%Z
    then push suggestions suggestion_low_fps else suggestions in
  let suggestions :=
    if (averageFPS report <? 20)%Z
    then push suggestions suggestion_very_low_fps else suggestions in
  let suggestions :=
    match lastMemory report with
    | Some mem =>
        if (500 * 1024 * 1024 <? sample_used mem)%Z
        then push suggestions suggestion_high_memory else suggestions
    | None => suggestions
    end in
  suggestions.

(** What can happen to a sampler between two observations. *)
Inductive Event :=
| Frame (currentTime : Q)
| MemoryTick (reading : option MemoryInfo) (now : Z).

Definition step (st : t * Env) (ev : Event) : t * Env :=
  match ev with
  | Frame now => frame now st
  | MemoryTick reading now => memoryTick reading now (fst st) (snd st)
  end.

Definition run (evs : list Event) (st : t * Env) : t * Env :=
  fold_left step evs st.

(** *** What an event records *)







End PerformanceMonitor.

(** ** Accessibility annotator: [class GameAccessibility] *)

Module Accessibility.
Import JSArray.

(** *** Strings: [String.prototype.trim] on UTF-8 *)

Definition byte_is (c : ascii) (n : N) : bool := N.eqb (N_of_ascii c) n.

Definition byte_in (c : ascii) (lo hi : N) : bool :=
  N.leb lo (N_of_ascii c) && N.leb (N_of_ascii c) hi.

(** TAB, LF, VT, FF, CR and SPACE. *)
Definition ws1 (c : ascii) : bool := byte_in c 9 13 || byte_is c 32.

(** U+00A0. *)
Definition ws2 (c1 c2 : ascii) : bool := byte_is c1 194 && byte_is c2 160.

(** U+1680, U+2000 to U+200A, U+2028, U+2029, U+202F, U+205F, U+3000 and
    U+FEFF. *)
Definition ws3 (c1 c2 c3 : ascii) : bool :=
  (byte_is c1 225 && byte_is c2 154 && byte_is c3 128)
  || (byte_is c1 226 && byte_is c2 128
      && (byte_in c3 128 138 || byte_is c3 168 || byte_is c3 169
          || byte_is c3 175))
  || (byte_is c1 226 && byte_is c2 129 && byte_is c3 159)
  || (byte_is c1 227 && byte_is c2 128 && byte_is c3 128)
  || (byte_is c1 239 && byte_is c2 187 && byte_is c3 191).

(** Drops the white space a byte list starts with; [fwd] tells whether the
    bytes are in reading order or reversed. *)
Fixpoint strip (fwd : bool) (s : list ascii) : list ascii :=
  match s with
  | [] => []
  | c1 :: r1 =>
      if ws1 c1 then strip fwd r1
      else
        match r1 with
        | [] => s
        | c2 :: r2 =>
            if (if fwd then ws2 c1 c2 else ws2 c2 c1) then strip fwd r2
            else
              match r2 with
              | [] => s
              | c3 :: r3 =>
                  if (if fwd then ws3 c1 c2 c3 else ws3 c3 c2 c1)
                  then strip fwd r3
                  else s
              end
        end
  end.

(** [s.trim()] *)
Definition trim (s : string) : string :=
  string_of_list_ascii
    (rev (strip false (rev (strip true (list_ascii_of_string s))))).

(** JS truthiness of a string. *)
Definition truthy (s : string) : bool := negb (String.eqb s "").

(** [a || rest] where [a] is a string. *)
Definition or_string (a rest : string) : string :=
  if truthy a then a else rest.

(** [a || rest] where [a] is an attribute value or [null]. *)
Definition or_attribute (a : option string) (rest : string) : string :=
  match a with
  | Some v => or_string v rest
  | None => rest
  end.

(** *** The document *)

(** An element.  The markup inside an element is represented by its text
    ([textContent]); [cssText] is [element.style.cssText]. *)
Record Element := mkElement {
  tagName : string;
  attributes : list (string * string);
  classList : list string;
  textContent : string;
  cssText : string
}.

Inductive NodeRef := InHead (i : nat) | InBody (i : nat).

(** A pending [setTimeout] callback of [announceToScreenReader]: it
    clears the text of the element it captured. *)
Record Timer := mkTimer {
  due : Z;
  target : NodeRef
}.

(** [head] holds the children of [document.head] and [body] the elements
    under [document.body] in document order; the selectors of the sweep
    look for buttons, images, canvases and game containers, which live
    under the body. *)
Record Document := mkDocument {
  head : list Element;
  body : list Element;
  rootClassList : list string;     (* document.documentElement.classList *)
  keydownListeners : nat;          (* document keydown listeners *)
  forcedColors : bool;             (* the media query's [matches] *)
  mediaListeners : nat;            (* change listeners on the query *)
  timers : list Timer;
  console : Console
}.

Record t := mkAccessibility { initialized : bool }.

(** [constructor()] *)
Definition new : t := {| initialized := false |}.

Definition createElement (tag : string) : Element :=
  {| tagName := tag; attributes := []; classList := [];
     textContent := ""; cssText := "" |}.

Fixpoint lookup (name : string) (attrs : list (string * string))
    : option string :=
  match attrs with
  | [] => None
  | (k, v) :: rest => if String.eqb k name then Some v else lookup name rest
  end.

Fixpoint store (name value : string) (attrs : list (string * string))
    : list (string * string) :=
  match attrs with
  | [] => [(name, value)]
  | (k, v) :: rest =>
      if String.eqb k name then (k, value) :: rest
      else (k, v) :: store name value rest
  end.

Definition getAttribute (name : string) (e : Element) : option string :=
  lookup name (attributes e).

Definition hasAttribute (name : string) (e : Element) : bool :=
  match getAttribute name e with Some _ => true | None => false end.

Definition setAttribute (name value : string) (e : Element) : Element :=
  {| tagName := tagName e;
     attributes := store name value (attributes e);
     classList := classList e;
     textContent := textContent e;
     cssText := cssText e |}.

(** [element.id] reflects the [id] attribute, the empty string when it is
    absent. *)
Definition id (e : Element) : string :=
  match getAttribute "id" e with Some v => v | None => "" end.

Definition contains (c : string) (cl : list string) : bool :=
  existsb (String.eqb c) cl.

(** [classList.add(c)] *)
Definition add (c : string) (cl : list string) : list string :=
  if contains c cl then cl else cl ++ [c].

Definition set_classList (cl : list string) (e : Element) : Element :=
  {| tagName := tagName e; attributes := attributes e;
     classList := cl; textContent := textContent e; cssText := cssText e |}.

Definition set_textContent (txt : string) (e : Element) : Element :=
  {| tagName := tagName e; attributes := attributes e;
     classList := classList e; textContent := txt; cssText := cssText e |}.

Definition set_cssText (css : string) (e : Element) : Element :=
  {| tagName := tagName e; attributes := attributes e;
     classList := classList e; textContent := textContent e;
     cssText := css |}.

Definition set_head (h : list Element) (d : Document) : Document :=
  {| head := h; body := body d; rootClassList := rootClassList d;
     keydownListeners := keydownListeners d; forcedColors := forcedColors d;
     mediaListeners := mediaListeners d; timers := timers d;
     console := console d |}.

Definition set_body (b : list Element) (d : Document) : Document :=
  {| head := head d; body := b; rootClassList := rootClassList d;
     keydownListeners := keydownListeners d; forcedColors := forcedColors d;
     mediaListeners := mediaListeners d; timers := timers d;
     console := console d |}.

Definition set_timers (ts : list Timer) (d : Document) : Document :=
  {| head := head d; body := body d; rootClassList := rootClassList d;
     keydownListeners := keydownListeners d; forcedColors := forcedColors d;
     mediaListeners := mediaListeners d; timers := ts;
     console := console d |}.

(** [querySelectorAll(sel).forEach(f)]: the callback sees each matching
    element once, in document order, and may also change a state [S]
    outside the list (the document head). *)
Fixpoint forEach {S : Type} (sel : Element -> bool)
    (f : Element -> S -> Element * S) (els : list Element) (st : S)
    : list Element * S :=
  match els with
  | [] => ([], st)
  | e :: rest =>
      if sel e then
        let '(e1, st1) := f e st in
        let '(rest1, st2) := forEach sel f rest st1 in
        (e1 :: rest1, st2)
      else
        let '(rest1, st1) := forEach sel f rest st in
        (e :: rest1, st1)
  end.

(** *** The sweep of [init] *)

Definition is_tag (tag : string) (e : Element) : bool :=
  String.eqb (tagName e) tag.

(** [getButtonLabel(button)] *)
Definition getButtonLabel (button : Element) : string :=
  or_attribute (getAttribute "aria-label" button)
    (or_string (trim (textContent button))
      (or_attribute (getAttribute "title" button)
        (or_string (id button)
          "按鈕"))).

Definition focus_style : Element :=
  set_textContent "
                    button.has-focus-style:focus {
                        outline: 3px solid #4CAF50 !important;
                        outline-offset: 2px !important;
                        box-shadow: 0 0 0 3px rgba(76, 175, 80, 0.3) !important;
                    }
                " (createElement "style").

(** The callback of [addButtonAccessibility]; the state it threads is
    [document.head]. *)
Definition annotate_button (button : Element) (hd : list Element)
    : Element * list Element :=
  let button :=
    if negb (hasAttribute "aria-label" button)
    then setAttribute "aria-label" (getButtonLabel button) button
    else button in
  if negb (contains "has-focus-style" (classList button))
  then (set_classList (add "has-focus-style" (classList button)) button,
        hd ++ [focus_style])
  else (button, hd).

(** [addButtonAccessibility()] *)
Definition addButtonAccessibility (d : Document) : Document :=
  let '(b, h) := forEach (is_tag "button") annotate_button (body d) (head d) in
  set_head h (set_body b d).

Definition annotate_image (img : Element) (u : unit) : Element * unit :=
  (if negb (hasAttribute "alt" img)
   then setAttribute "alt"
          (or_attribute (getAttribute "aria-label" img)
            (or_attribute (getAttribute "title" img)
              (or_string (id img) "遊戲圖片")))
          img
   else img, u).

(** [addImageAccessibility()] *)
Definition addImageAccessibility (d : Document) : Document :=
  set_body (fst (forEach (is_tag "img") annotate_image (body d) tt)) d.

(** The selector ['canvas, .game-container, .game-area']. *)
Definition is_game_container (e : Element) : bool :=
  is_tag "canvas" e || contains "game-container" (classList e)
  || contains "game-area" (classList e).

Definition annotate_container (container : Element) (u : unit)
    : Element * unit :=
  let container :=
    if negb (hasAttribute "tabindex" container)
    then setAttribute "role" "application"
           (setAttribute "tabindex" "0" container)
    else container in
  (if negb (hasAttribute "aria-label" container)
   then setAttribute "aria-label"
          (or_attribute (getAttribute "aria-label" container)
            (or_string (id container) "遊戲區域"))
          container
   else container, u).

Definition shortcuts : list (string * string) :=
  [("空格鍵", "開始/暫停遊戲"); ("ESC鍵", "返回/退出"); ("方向鍵", "移動控制");
   ("P鍵", "暫停遊戲"); ("R鍵", "重新開始")].

(** The text of the help overlay: the heading, then the shortcut lines
    (the line breaks of the markup carry no text). *)
Definition help_text : string :=
  String.append "鍵盤快捷鍵"
    (String.concat ""
       (map (fun kd => String.append (fst kd) (String.append ": " (snd kd)))
            shortcuts)).

Definition helpElement : Element :=
  set_textContent help_text
    (set_cssText "
            position: fixed;
            bottom: 10px;
            right: 10px;
            background: rgba(0,0,0,0.8);
            color: white;
            padding: 10px;
            border-radius: 5px;
            font-size: 12px;
            z-index: 10000;
            display: none;
        "
      (set_classList ["keyboard-shortcuts-help"] (createElement "div"))).

(** [addKeyboardShortcutsHelp()] *)
Definition addKeyboardShortcutsHelp (d : Document) : Document :=
  let d := set_body (body d ++ [helpElement]) d in
  {| head := head d; body := body d; rootClassList := rootClassList d;
     keydownListeners := S (keydownListeners d);
     forcedColors := forcedColors d;
     mediaListeners := mediaListeners d; timers := timers d;
     console := console d |}.

(** [addKeyboardNavigation()] *)
Definition addKeyboardNavigation (d : Document) : Document :=
  let d :=
    set_body
      (fst (forEach is_game_container annotate_container (body d) tt)) d in
  addKeyboardShortcutsHelp d.

Definition high_contrast_style : Element :=
  set_textContent "
            .high-contrast-mode {
                --hc-text: white !important;
                --hc-bg: black !important;
                --hc-border: white !important;
            }
            
            .high-contrast-mode * {
                color: var(--hc-text) !important;
                background-color: var(--hc-bg) !important;
                border-color: var(--hc-border) !important;
            }
            
            .high-contrast-mode canvas {
                border: 3px solid white !important;
            }
        "
    (setAttribute "id" "high-contrast-styles" (createElement "style")).

(** [applyHighContrastStyles()] *)
Definition applyHighContrastStyles (d : Document) : Document :=
  set_head (head d ++ [high_contrast_style]) d.

(** [detectHighContrastMode()]: the immediate check and the registration
    of the change listener. *)
Definition detectHighContrastMode (d : Document) : Document :=
  let d :=
    if forcedColors d then
      applyHighContrastStyles
        {| head := head d; body := body d;
           rootClassList := add "high-contrast-mode" (rootClassList d);
           keydownListeners := keydownListeners d;
           forcedColors := forcedColors d;
           mediaListeners := mediaListeners d; timers := timers d;
           console := console d |}
    else d in
  {| head := head d; body := body d; rootClassList := rootClassList d;
     keydownListeners := keydownListeners d;
     forcedColors := forcedColors d;
     mediaListeners := S (mediaListeners d); timers := timers d;
     console := console d |}.

(** [init()] *)
Definition init (a : t) (d : Document) : t * Document :=
  if initialized a then (a, d)
  else
    let d := addButtonAccessibility d in
    let d := addImageAccessibility d in
    let d := addKeyboardNavigation d in
    let d := detectHighContrastMode d in
    ({| initialized := true |},
     {| head := head d; body := body d; rootClassList := rootClassList d;
        keydownListeners := keydownListeners d;
        forcedColors := forcedColors d;
        mediaListeners := mediaListeners d; timers := timers d;
        console := console d ++ [mkEntry LevelLog "遊戲可訪問性支援已初始化"] |}).

(** *** The live region *)

Fixpoint find_index (p : Element -> bool) (l : list Element) : option nat :=
  match l with
  | [] => None
  | e :: rest =>
      if p e then Some 0
      else match find_index p rest with
           | Some i => Some (S i)
           | None => None
           end
  end.

Definition has_id (name : string) (e : Element) : bool :=
  match getAttribute "id" e with
  | Some v => String.eqb v name
  | None => false
  end.

(** [document.getElementById(name)]: the first element of the document
    with this id. *)
Definition getElementById (name : string) (d : Document) : option NodeRef :=
  match find_index (has_id name) (head d) with
  | Some i => Some (InHead i)
  | None =>
      match find_index (has_id name) (body d) with
      | Some i => Some (InBody i)
      | None => None
      end
  end.

Fixpoint update_nth (i : nat) (f : Element -> Element) (l : list Element)
    {struct l} : list Element :=
  match l, i with
  | [], _ => []
  | e :: rest, O => f e :: rest
  | e :: rest, S j => e :: update_nth j f rest
  end.

Definition deref (r : NodeRef) (d : Document) : option Element :=
  match r with
  | InHead i => nth_error (head d) i
  | InBody i => nth_error (body d) i
  end.

(** [node.textContent = txt] on the node [r] refers to. *)
Definition write_text (r : NodeRef) (txt : string) (d : Document)
    : Document :=
  match r with
  | InHead i => set_head (update_nth i (set_textContent txt) (head d)) d
  | InBody i => set_body (update_nth i (set_textContent txt) (body d)) d
  end.

Definition live_region_id : string := "screen-reader-announcements".

Definition new_live_region (priority : string) : Element :=
  set_cssText
    "position: absolute; left: -9999px; width: 1px; height: 1px; overflow: hidden;"
    (setAttribute "aria-atomic" "true"
      (setAttribute "aria-live" priority
        (setAttribute "id" live_region_id (createElement "div")))).

(** [announceToScreenReader(message, priority = 'polite')], called when
    the timer clock reads [now]. *)
Definition announceToScreenReader (message : string)
    (priority : option string) (now : Z) (d : Document) : Document :=
  let priority := match priority with Some p => p | None => "polite" end in
  let '(liveRegion, d) :=
    match getElementById live_region_id d with
    | Some r => (r, d)
    | None =>
        (InBody (length (body d)),
         set_body (body d ++ [new_live_region priority]) d)
    end in
  let d := write_text liveRegion message d in
  set_timers (timers d ++ [{| due := (now + 1000)%Z; target := liveRegion |}]) d.

(** The callback given to [setTimeout]. *)
Definition clear (tm : Timer) (d : Document) : Document :=
  write_text (target tm) "" d.

Definition is_due (now : Z) (tm : Timer) : bool := (due tm <=? now)%Z.

(** The timer clock reaches [now]: every callback that is due runs, in the
    order in which the callbacks were scheduled, and leaves the queue. *)
Definition advance (now : Z) (d : Document) : Document :=
  fold_left (fun d tm => clear tm d)
    (filter (is_due now) (timers d))
    (set_timers (filter (fun tm => negb (is_due now tm)) (timers d)) d).

(** The live region, when there is one, and its text. *)
Definition live_region (d : Document) : option Element :=
  match getElementById live_region_id d with
  | Some r => deref r d
  | None => None
  end.

Definition live_text (d : Document) : option string :=
  option_map textContent (live_region d).

(** A later call of [announceToScreenReader]. *)
Record Call := mkCall {
  call_message : string;
  call_priority : option string;
  call_time : Z
}.

(** The clock moves to the time of the call, then the call is made. *)
Definition later_call (d : Document) (c : Call) : Document :=
  announceToScreenReader (call_message c) (call_priority c) (call_time c)
    (advance (call_time c) d).

Definition later_calls (cs : list Call) (d : Document) : Document :=
  fold_left later_call cs d.

(** *** Vocabulary of the properties *)

(** The fallback priority in the words of the specification: the first
    candidate that is not empty, the fallback string when all are. *)
Fixpoint first_nonempty (candidates : list string) (fallback : string)
    : string :=
  match candidates with
  | [] => fallback
  | c :: rest => if truthy c then c else first_nonempty rest fallback
  end.

Definition attribute_or_empty (a : option string) : string :=
  match a with Some v => v | None => "" end.

Definition is_focus_style (e : Element) : bool :=
  is_tag "style" e && String.eqb (textContent e) (textContent focus_style).

(** The number of copies of the focus style rule in the document. *)
Definition count_focus_styles (d : Document) : nat :=
  length (filter is_focus_style (head d)).




(** The copies of the focus style rule added between two states of the
    document. *)
Definition injected_focus_styles (before after : Document) : nat :=
  count_focus_styles after - count_focus_styles before.

(** The element the callback of the button sweep leaves behind. *)
Definition annotated (b : Element) : Element := fst (annotate_button b []).

(** A button that does not carry the marker class yet. *)
Definition lacks_marker (e : Element) : bool :=
  is_tag "button" e && negb (contains "has-focus-style" (classList e)).

Definition NodeRef_eqb (r1 r2 : NodeRef) : bool :=
  match r1, r2 with
  | InHead i, InHead j => Nat.eqb i j
  | InBody i, InBody j => Nat.eqb i j
  | _, _ => false
  end.

(** [r] is the live region of [d] and holds [e]. *)
Definition region_at (r : NodeRef) (e : Element) (d : Document) : Prop :=
  getElementById live_region_id d = Some r /\ deref r d = Some e.

(** [e'] differs from [e] in its text at most. *)
Definition same_but_text (e e' : Element) : Prop :=
  tagName e' = tagName e /\ attributes e' = attributes e /\
  classList e' = classList e /\ cssText e' = cssText e.

(** *** Vocabulary of the further properties *)

(** The elements the callbacks of the image and container sweeps leave
    behind. *)
Definition with_alt (img : Element) : Element := fst (annotate_image img tt).

Definition as_container (c : Element) : Element :=
  fst (annotate_container c tt).

(** What the three sweeps of [init] do to one element, in their order. *)
Definition swept (e : Element) : Element :=
  let e := if is_tag "button" e then annotated e else e in
  let e := if is_tag "img" e then with_alt e else e in
  if is_game_container e then as_container e else e.

(** [e'] is [e] with attributes and classes added at most: same tag, text
    and inline style, every class of [e], and every attribute of [e] other
    than [role] and [class] with its value.  (The classes are kept in
    [classList]; the [class] attribute follows them.) *)
Definition extends_element (e e' : Element) : Prop :=
  tagName e' = tagName e /\ textContent e' = textContent e /\
  cssText e' = cssText e /\
  (forall c, In c (classList e) -> In c (classList e')) /\
  (forall name v, name <> "role" -> name <> "class" ->
                  getAttribute name e = Some v ->
                  getAttribute name e' = Some v).

(** *** The forced-colors listener *)

(** [classList.remove(c)] *)
Definition remove (c : string) (cl : list string) : list string :=
  filter (fun x => negb (String.eqb x c)) cl.

Fixpoint remove_nth (i : nat) (l : list Element) {struct l} : list Element :=
  match l, i with
  | [], _ => []
  | _ :: rest, O => rest
  | e :: rest, S j => e :: remove_nth j rest
  end.

(** Where a reference points after the element at position [i] of its list
    has left the document; [None] for the element that left. *)
Definition shift_index (i j : nat) : option nat :=
  if Nat.eqb j i then None
  else Some (if Nat.ltb i j then Nat.pred j else j).

(** A pending clear callback after the node [removed] has left the
    document.  The callback of the removed node itself stays pending in the
    browser, but the node it writes to is no longer part of the document,
    so it is dropped here. *)
Definition after_removal (removed : NodeRef) (tm : Timer) : list Timer :=
  match removed, target tm with
  | InHead i, InHead j =>
      match shift_index i j with
      | Some k => [{| due := due tm; target := InHead k |}]
      | None => []
      end
  | InBody i, InBody j =>
      match shift_index i j with
      | Some k => [{| due := due tm; target := InBody k |}]
      | None => []
      end
  | _, _ => [tm]
  end.

(** [node.remove()] *)
Definition remove_node (r : NodeRef) (d : Document) : Document :=
  let d := set_timers (flat_map (after_removal r) (timers d)) d in
  match r with
  | InHead i => set_head (remove_nth i (head d)) d
  | InBody i => set_body (remove_nth i (body d)) d
  end.

(** [removeHighContrastStyles()] *)
Definition removeHighContrastStyles (d : Document) : Document :=
  match getElementById "high-contrast-styles" d with
  | Some style => remove_node style d
  | None => d
  end.

Definition set_rootClassList (cl : list string) (d : Document) : Document :=
  {| head := head d; body := body d; rootClassList := cl;
     keydownListeners := keydownListeners d; forcedColors := forcedColors d;
     mediaListeners := mediaListeners d; timers := timers d;
     console := console d |}.

(** The change listener registered by [detectHighContrastMode], called
    with [e.matches]. *)
Definition onForcedColorsChange (matches : bool) (d : Document) : Document :=
  if matches then
    applyHighContrastStyles
      (set_rootClassList (add "high-contrast-mode" (rootClassList d)) d)
  else
    removeHighContrastStyles
      (set_rootClassList (remove "high-contrast-mode" (rootClassList d)) d).

(** The forced-colors setting changes to [matches]: the media query now
    reports it and every registered change listener runs. *)
Definition forcedColorsChange (matches : bool) (d : Document) : Document :=
  Nat.iter (mediaListeners d) (onForcedColorsChange matches)
    {| head := head d; body := body d; rootClassList := rootClassList d;
       keydownListeners := keydownListeners d; forcedColors := matches;
       mediaListeners := mediaListeners d; timers := timers d;
       console := console d |}.

End Accessibility.

(** ** The patched canvas methods: [patchCanvasMethods] *)

Module Canvas.

(** An argument of a drawing call: a number, or an object such as an
    image. *)
Inductive Arg :=
| Num (q : Q)
| Obj (handle : nat).

(** How a call ends. *)
Inductive Outcome :=
| Returned
| Threw (error : string).

Section Patched.

(** The state of a rendering context together with its canvas. *)
Variable Ctx : Type.

(** [this.canvas.width] and [this.canvas.height]; [None] when reading them
    throws. *)
Variable canvas_size : Ctx -> option (Q * Q).

(** A method of [CanvasRenderingContext2D.prototype]: it acts on the
    context and may write to the console. *)
Definition Method : Type :=
  list Arg -> Ctx -> Console -> Outcome * Ctx * Console.

(** The methods found on the prototype before any patch. *)
Variable originalFillRect : Method.
Variable originalDrawImage : Method.
Variable originalClearRect : Method.

Definition warning (txt : string) : ConsoleEntry := mkEntry LevelWarn txt.

(** How a call ended. *)
Definition outcome_of (r : Outcome * Ctx * Console) : Outcome := fst (fst r).

(** The replacement of [fillRect]; [this_clearRect] is the method that
    [this.clearRect] names when the call fails. *)
Definition patchedFillRect (original this_clearRect : Method) : Method :=
  fun args c log =>
    match original args c log with
    | (Returned, c1, log1) => (Returned, c1, log1)
    | (Threw error, c1, log1) =>
        let log2 := log1 ++ [warning "Canvas fillRect 錯誤，嘗試恢復:"] in
        match canvas_size c1 with
        | Some (width, height) =>
            let '(_, c2, log3) :=
              this_clearRect [Num 0; Num 0; Num width; Num height] c1 log2 in
            (Returned, c2, log3)
        | None => (Returned, c1, log2)
        end
    end.

(** The replacement of [drawImage]. *)
Definition patchedDrawImage (original : Method) : Method :=
  fun args c log =>
    match original args c log with
    | (Returned, c1, log1) => (Returned, c1, log1)
    | (Threw error, c1, log1) =>
        (Returned, c1, log1 ++ [warning "Canvas drawImage 錯誤:"])
    end.

(** The replacement of [clearRect]. *)
Definition patchedClearRect (original : Method) : Method :=
  fun args c log =>
    match original args c log with
    | (Returned, c1, log1) => (Returned, c1, log1)
    | (Threw error, c1, log1) =>
        (Returned, c1, log1 ++ [warning "Canvas clearRect 錯誤:"])
    end.

(** The methods on the prototype after [n] calls of
    [patchCanvasMethods]: every call wraps the method it finds. *)
Fixpoint clearRect_after (n : nat) : Method :=
  match n with
  | O => originalClearRect
  | S k => patchedClearRect (clearRect_after k)
  end.

Fixpoint drawImage_after (n : nat) : Method :=
  match n with
  | O => originalDrawImage
  | S k => patchedDrawImage (drawImage_after k)
  end.

Fixpoint fillRect_layers (n : nat) (this_clearRect : Method) : Method :=
  match n with
  | O => originalFillRect
  | S k => patchedFillRect (fillRect_layers k this_clearRect) this_clearRect
  end.

(** [fillRect] on a page where [patchCanvasMethods] ran [n] times: the
    recovery of every layer calls the [clearRect] of that page. *)
Definition fillRect_after (n : nat) : Method :=
  fillRect_layers n (clearRect_after n).

End Patched.

End Canvas.

(** ** The entry point: [window.GameUtils.initAll] *)

Module GameUtils.

(** The parts of the browser page the three components act on. *)
Record Page := mkPage {
  window : ErrorHandler.Window;
  document : Accessibility.Document;
  scheduler : PerformanceMonitor.Env
}.

(** The object [initAll] returns. *)
Record Utils := mkUtils {
  errorHandler : ErrorHandler.t;
  accessibility : Accessibility.t;
  performanceMonitor : PerformanceMonitor.t
}.

(** [initAll(gameName = 'HTML5遊戲')]; [constructed] and [started] are the
    readings of [performance.now()] in the constructor and in [init] of the
    sampler, [hasMemory] the truthiness of [performance.memory]. *)
Definition initAll (gameName : option string) (constructed started : Q)
    (hasMemory : bool) (p : Page) : Utils * Page :=
  let gameName := match gameName with Some n => n | None => "HTML5遊戲" end in
  let errorHandler := ErrorHandler.new (Some gameName) in
  let accessibility := Accessibility.new in
  let performanceMonitor :=
    PerformanceMonitor.new (Some gameName) constructed in
  let '(errorHandler, w) := ErrorHandler.init errorHandler (window p) in
  let '(accessibility, d) := Accessibility.init accessibility (document p) in
  let '(performanceMonitor, e) :=
    PerformanceMonitor.init started hasMemory performanceMonitor
      (scheduler p) in
  ({| errorHandler := errorHandler;
      accessibility := accessibility;
      performanceMonitor := performanceMonitor |},
   {| window := w; document := d; scheduler := e |}).

End GameUtils.

(** ** Concrete pages and inputs used in the examples *)

Module Samples.

(** *** Fault reporter *)

Definition sample_fault (k : nat) : ErrorHandler.Fault :=
  ErrorHandler.mkFault "2024-01-01T00:00:00.000Z"
    (ErrorHandler.OtherValue (String (ascii_of_nat (48 + k)) ""))
    (if Nat.even k then Some "window.error" else None).

Definition empty_window : ErrorHandler.Window :=
  ErrorHandler.mkWindow [] 0 0 0 0 [].

(** *** Sampler *)

Definition running_env : PerformanceMonitor.Env :=
  PerformanceMonitor.mkEnv 1 0 [].

(** A sampler whose window holds the given FPS samples. *)
Definition monitor_with (samples : list Z) : PerformanceMonitor.t :=
  PerformanceMonitor.mkMonitor "tetris"
    (PerformanceMonitor.mkMetrics samples [] None) 0%Z 0%Q false.

(** *** Accessibility annotator *)

Definition button (attrs : list (string * string)) (txt : string)
    : Accessibility.Element :=
  Accessibility.mkElement "button" attrs [] txt "".

Definition page (els : list Accessibility.Element) : Accessibility.Document :=
  Accessibility.mkDocument [] els [] 0 false 0 [] [].

(** Two buttons, neither of which carries the marker class. *)
Definition two_buttons : Accessibility.Document :=
  page [button [("id", "start")] "Start"; button [] "  "].

(** A newer announcement that arrives 500 ms after the first one. *)
Definition newer_call : Accessibility.Call :=
  Accessibility.mkCall "next" (Some "assertive") 500.

(** A heap reading: 900 MiB used of a 1 GiB limit. *)
Definition heavy_heap : PerformanceMonitor.MemoryInfo :=
  PerformanceMonitor.mkMemoryInfo 943718400 1000000000 1073741824.


(** A canvas that has a role and an identifier but no tab index. *)
Definition canvas_with_role : Accessibility.Element :=
  Accessibility.mkElement "canvas" [("role", "img"); ("id", "board")] [] "" "".

(** *** Canvas *)

(** A context whose state is the number of drawing calls that reached it;
    its canvas is 300 by 150. *)
Definition sized (c : nat) : option (Q * Q) := Some (300%Q, 150%Q).

(** A [fillRect] and a [drawImage] that always throw and a [clearRect]
    that works. *)
Definition failing_call : Canvas.Method nat :=
  fun _ c log => (Canvas.Threw "InvalidStateError", c, log).

Definition working_call : Canvas.Method nat :=
  fun _ c log => (Canvas.Returned, S c, log).

(** *** A whole page *)

Definition blank_page : GameUtils.Page :=
  GameUtils.mkPage empty_window two_buttons (PerformanceMonitor.mkEnv 0 0 []).




End Samples.

(** * Properties *)

(** ** Bounded histories *)

Module JSArrayFacts.
Import JSArray.

Section Facts.
Context {A : Type}.

Lemma push_length (a : list A) (x : A) : length (push a x) = S (length a).
Proof. unfold push. rewrite length_app. simpl. lia. Qed.

Lemma shift_length (a : list A) : length (shift a) = pred (length a).
Proof. destruct a; reflexivity. Qed.

Lemma slice_last_all (n : nat) (a : list A) :
  length a <= n -> slice_last n a = a.
Proof.
  intros H. unfold slice_last.
  replace (length a - n) with 0 by lia. reflexivity.
Qed.

Lemma slice_last_length (n : nat) (a : list A) :
  length (slice_last n a) = Nat.min n (length a).
Proof. unfold slice_last. rewrite length_skipn. lia. Qed.

Lemma skipn_S_snoc (k : nat) (a : list A) (x : A) :
  k <= length a ->
  skipn (S k) (a ++ [x]) = tl (skipn k a ++ [x]).
Proof.
  revert a. induction k as [|k IH]; intros a Hk.
  - destruct a; reflexivity.
  - destruct a as [|y a]; simpl in Hk; [lia|].
    change (skipn (S (S k)) ((y :: a) ++ [x])) with (skipn (S k) (a ++ [x])).
    change (skipn (S k) (y :: a)) with (skipn k a).
    apply IH. lia.
Qed.

(** Pushing onto the last [cap] entries of a history and trimming gives
    the last [cap] entries of the longer history. *)
Lemma push_capped_slice_last (cap : nat) (hist : list A) (x : A) :
  push_capped cap (slice_last cap hist) x = slice_last cap (hist ++ [x]).
Proof.
  unfold push_capped. rewrite push_length, slice_last_length.
  unfold push, shift, slice_last. rewrite length_app. simpl length.
  destruct (Nat.ltb_spec cap (S (Nat.min cap (length hist)))) as [Hlt|Hge].
  - assert (Hc : cap <= length hist) by lia.
    replace (length hist + 1 - cap) with (S (length hist - cap)) by lia.
    rewrite skipn_S_snoc by lia. reflexivity.
  - assert (Hc : length hist < cap) by lia.
    replace (length hist - cap) with 0 by lia.
    replace (length hist + 1 - cap) with 0 by lia.
    reflexivity.
Qed.



(** The entry just pushed is the last one. *)
Lemma push_capped_last (cap : nat) (a : list A) (x d : A) :
  0 < cap -> last (push_capped cap a x) d = x.
Proof.
  intros Hc. unfold push_capped, push, shift.
  destruct a as [|y l].
  - destruct (Nat.ltb_spec cap (length ([] ++ [x]))) as [H|H];
      [simpl in H; lia | reflexivity].
  - destruct (cap <? length ((y :: l) ++ [x])).
    + simpl tl. apply last_last.
    + apply last_last.
Qed.
End Facts.

Lemma slice_last_map {A B : Type} (f : A -> B) (n : nat) (a : list A) :
  slice_last n (map f a) = map f (slice_last n a).
Proof. unfold slice_last. rewrite length_map. apply skipn_map. Qed.

End JSArrayFacts.

(** ** Fault reporter *)

Module ErrorHandlerFacts.
Import JSArray JSArrayFacts ErrorHandler.

(** [handleError] in terms of the capped push. *)
Lemma capture_errors (h : t) (w : Window) (f : Fault) :
  errors (fst (capture (h, w) f))
  = push_capped (maxErrors h) (errors h) (record_of (gameName h) f).
Proof. reflexivity. Qed.

Lemma capture_frame (h : t) (w : Window) (f : Fault) :
  gameName (fst (capture (h, w) f)) = gameName h /\
  maxErrors (fst (capture (h, w) f)) = maxErrors h /\
  initialized (fst (capture (h, w) f)) = initialized h.
Proof. repeat split. Qed.

(** The ring after a run, from any ring that holds the tail of a
    history. *)
Lemma capture_all_errors (fs : list Fault) :
  forall (h : t) (w : Window) (hist : list ErrorInfo),
    errors h = slice_last (maxErrors h) hist ->
    let h' := fst (capture_all fs (h, w)) in
    gameName h' = gameName h /\
    maxErrors h' = maxErrors h /\
    errors h'
    = slice_last (maxErrors h) (hist ++ map (record_of (gameName h)) fs).
Proof.
  induction fs as [|f fs IH]; intros h w hist Hh; cbn zeta.
  - simpl. rewrite app_nil_r. auto.
  - unfold capture_all. simpl fold_left.
    destruct (capture (h, w) f) as [h1 w1] eqn:E.
    assert (E1 : fst (capture (h, w) f) = h1) by (rewrite E; reflexivity).
    destruct (capture_frame h w f) as (Hn & Hm & _).
    rewrite E1 in Hn, Hm.
    assert (He : errors h1
                 = slice_last (maxErrors h1)
                     (hist ++ [record_of (gameName h) f])).
    { rewrite <- E1 at 1. rewrite capture_errors, Hh, Hm.
      apply push_capped_slice_last. }
    destruct (IH h1 w1 _ He) as (Hn' & Hm' & He').
    unfold capture_all in Hn', Hm', He'.
    rewrite Hn', Hm', He', Hn, Hm, <- app_assoc. auto.
Qed.



End ErrorHandlerFacts.

(** ** Sampler *)

Module PerformanceMonitorFacts.
Import JSArray JSArrayFacts PerformanceMonitor.

(** *** The two series *)

Lemma measureFPS_fps (now : Q) (m : t) (e : Env) :
  fps (metrics (fst (measureFPS now m e)))
  = if Qle_bool 1000 (now - lastTime m)
    then push_capped 60 (fps (metrics m))
           (Math_round ((inject_Z (frameCount m + 1) * 1000)
                        / (now - lastTime m)))
    else fps (metrics m).
Proof.
  unfold measureFPS. destruct (Qle_bool 1000 (now - lastTime m)); reflexivity.
Qed.


Lemma memoryTick_memory (reading : option MemoryInfo) (now : Z)
    (m : t) (e : Env) :
  memory (metrics (fst (memoryTick reading now m e)))
  = match reading with
    | None => memory (metrics m)
    | Some mem =>
        push_capped 60 (memory (metrics m))
          (mkMemorySample (usedJSHeapSize mem) (totalJSHeapSize mem)
             (jsHeapSizeLimit mem) now)
    end.
Proof. destruct reading; reflexivity. Qed.

Lemma memoryTick_fps (reading : option MemoryInfo) (now : Z)
    (m : t) (e : Env) :
  fps (metrics (fst (memoryTick reading now m e))) = fps (metrics m).
Proof. destruct reading; reflexivity. Qed.











(** *** Suggestions *)

Lemma low_neq_very_low : suggestion_low_fps <> suggestion_very_low_fps.
Proof.
  intros H. apply String.eqb_eq in H. vm_compute in H. discriminate H.
Qed.

Lemma low_neq_memory : suggestion_low_fps <> suggestion_high_memory.
Proof.
  intros H. apply String.eqb_eq in H. vm_compute in H. discriminate H.
Qed.

Lemma very_low_neq_memory : suggestion_very_low_fps <> suggestion_high_memory.
Proof.
  intros H. apply String.eqb_eq in H. vm_compute in H. discriminate H.
Qed.

(** The suggestions as a function of the mean and the last memory sample. *)
Lemma suggestions_shape (m : t) :
  getPerformanceSuggestions m
  = (if (averageFPS (getPerformanceReport m) <? 30)%Z
     then [suggestion_low_fps] else [])
    ++ (if (averageFPS (getPerformanceReport m) <? 20)%Z
        then [suggestion_very_low_fps] else [])
    ++ match lastMemory (getPerformanceReport m) with
       | Some mem =>
           if (500 * 1024 * 1024 <? sample_used mem)%Z
           then [suggestion_high_memory] else []
       | None => []
       end.
Proof.
  unfold getPerformanceSuggestions, push.
  destruct (averageFPS (getPerformanceReport m) <? 30)%Z;
    destruct (averageFPS (getPerformanceReport m) <? 20)%Z;
    destruct (lastMemory (getPerformanceReport m)) as [mem|];
    try destruct (500 * 1024 * 1024 <? sample_used mem)%Z; reflexivity.
Qed.

Lemma in_memory_part (s : string) (r : Report) :
  In s match lastMemory r with
       | Some mem =>
           if (500 * 1024 * 1024 <? sample_used mem)%Z
           then [suggestion_high_memory] else []
       | None => []
       end ->
  s = suggestion_high_memory.
Proof.
  destruct (lastMemory r) as [mem|]; [|intros []].
  destruct (500 * 1024 * 1024 <? sample_used mem)%Z; [|intros []].
  intros [H|[]]. symmetry. exact H.
Qed.

Lemma low_in_suggestions (m : t) :
  In suggestion_low_fps (getPerformanceSuggestions m)
  <-> (averageFPS (getPerformanceReport m) < 30)%Z.
Proof.
  rewrite suggestions_shape.
  destruct (Z.ltb_spec (averageFPS (getPerformanceReport m)) 30) as [H|H].
  - split; [intros _; exact H | intros _; left; reflexivity].
  - split; [|lia]. cbn [app]. intros Hin. apply in_app_or in Hin.
    destruct Hin as [Hin|Hin].
    + destruct (averageFPS (getPerformanceReport m) <? 20)%Z;
        [destruct Hin as [E|[]]; symmetry in E; exfalso; exact (low_neq_very_low E)
        | destruct Hin].
    + apply in_memory_part in Hin. exfalso; exact (low_neq_memory Hin).
Qed.

Lemma very_low_in_suggestions (m : t) :
  In suggestion_very_low_fps (getPerformanceSuggestions m)
  <-> (averageFPS (getPerformanceReport m) < 20)%Z.
Proof.
  rewrite suggestions_shape.
  destruct (Z.ltb_spec (averageFPS (getPerformanceReport m)) 20) as [H|H].
  - split; [intros _; exact H|]. intros _.
    apply in_or_app. right. left. reflexivity.
  - split; [|lia]. intros Hin. apply in_app_or in Hin.
    destruct Hin as [Hin|Hin].
    + destruct (averageFPS (getPerformanceReport m) <? 30)%Z;
        [destruct Hin as [E|[]]; exfalso; exact (low_neq_very_low E)
        | destruct Hin].
    + cbn [app] in Hin. apply in_memory_part in Hin.
      exfalso; exact (very_low_neq_memory Hin).
Qed.

(** C3. In every state the quality-reduction suggestion is returned
    exactly when the computed mean FPS is 29 or below, it and the stronger
    warning are both returned exactly when the mean is 19 or below, and
    with a mean of 30 or above neither is returned. *)
Theorem suggestions_follow_mean_fps :
  forall m : t,
    let avg := averageFPS (getPerformanceReport m) in
    let s := getPerformanceSuggestions m in
    (In suggestion_low_fps s <-> (avg <= 29)%Z) /\
    (In suggestion_low_fps s /\ In suggestion_very_low_fps s
     <-> (avg <= 19)%Z) /\
    ((30 <= avg)%Z ->
     ~ In suggestion_low_fps s /\ ~ In suggestion_very_low_fps s).
Proof.
  intros m avg s. subst avg s.
  pose proof (low_in_suggestions m) as L.
  pose proof (very_low_in_suggestions m) as V.
  split; [|split].
  - rewrite L. lia.
  - rewrite L, V. lia.
  - intros H. rewrite L, V. lia.
Qed.

Lemma suggestions_follow_mean_fps_witness :
  averageFPS (getPerformanceReport (Samples.monitor_with [60; 58]%Z)) = 59%Z /\
  ~ In suggestion_low_fps
      (getPerformanceSuggestions (Samples.monitor_with [60; 58]%Z)) /\
  ~ In suggestion_very_low_fps
      (getPerformanceSuggestions (Samples.monitor_with [60; 58]%Z)).
Proof.
  split; [vm_compute; reflexivity|].
  apply (suggestions_follow_mean_fps (Samples.monitor_with [60; 58]%Z)).
  vm_compute. discriminate.
Defined.

(** C9. With an empty FPS series the report gives 0 for the current, mean,
    minimum and maximum FPS, so the suggestions already start with the two
    low-FPS messages. *)
Theorem empty_series_reports_zero :
  forall m : t,
    fps (metrics m) = [] ->
    let r := getPerformanceReport m in
    currentFPS r = 0%Z /\ averageFPS r = 0%Z /\
    minFPS r = 0%Z /\ maxFPS r = 0%Z /\
    In suggestion_low_fps (getPerformanceSuggestions m) /\
    In suggestion_very_low_fps (getPerformanceSuggestions m) /\
    firstn 2 (getPerformanceSuggestions m)
    = [suggestion_low_fps; suggestion_very_low_fps].
Proof.
  intros m H r.
  assert (Hr : currentFPS r = 0%Z /\ averageFPS r = 0%Z /\
               minFPS r = 0%Z /\ maxFPS r = 0%Z).
  { subst r. unfold getPerformanceReport. rewrite H. simpl. auto. }
  destruct Hr as (Hc & Ha & Hmin & Hmax).
  repeat split; try assumption.
  - apply low_in_suggestions. fold r. lia.
  - apply very_low_in_suggestions. fold r. lia.
  - rewrite suggestions_shape. fold r. rewrite Ha. reflexivity.
Qed.

Lemma empty_series_reports_zero_witness :
  averageFPS (getPerformanceReport (new (Some "tetris") 0)) = 0%Z /\
  getPerformanceSuggestions (new (Some "tetris") 0)
  = [suggestion_low_fps; suggestion_very_low_fps].
Proof.
  destruct (empty_series_reports_zero (new (Some "tetris") 0) eq_refl)
    as (_ & Ha & _ & _ & _ & _ & _).
  split; [exact Ha | reflexivity].
Defined.

(** *** Rounding and the reporting frame *)

Lemma Math_round_Z (z : Z) : Math_round (inject_Z z) = z.
Proof.
  unfold Math_round, Qfloor, Qplus, inject_Z. simpl Qnum. simpl Qden.
  change (Z.pos (1 * 2)) with 2%Z.
  replace (z * 2 + 1 * 1)%Z with (1 + z * 2)%Z by ring.
  rewrite Z.div_add by lia. reflexivity.
Qed.

Lemma measureFPS_reporting (now : Q) (m : t) (e : Env) :
  Qle_bool 1000 (now - lastTime m) = true ->
  let sample :=
    Math_round (inject_Z (frameCount m + 1) * 1000 / (now - lastTime m)) in
  fst (measureFPS now m e)
  = {| gameName := gameName m;
       metrics := {| fps := push_capped 60 (fps (metrics m)) sample;
                     memory := memory (metrics m);
                     loadTime := loadTime (metrics m) |};
       frameCount := 0;
       lastTime := now;
       initialized := initialized m |}.
Proof. intros H. unfold measureFPS. rewrite H. reflexivity. Qed.

End PerformanceMonitorFacts.

(** ** Accessibility annotator *)

Module AccessibilityFacts.
Import JSArray Accessibility.

(** *** Attributes and the sweep *)

Lemma lookup_store_same (name value : string) (attrs : list (string * string)) :
  lookup name (store name value attrs) = Some value.
Proof.
  induction attrs as [|[k v] rest IH]; simpl.
  - rewrite String.eqb_refl. reflexivity.
  - destruct (String.eqb k name) eqn:E; simpl; rewrite E; [reflexivity | exact IH].
Qed.

Lemma or_string_first_nonempty (a rest : string) (cs : list string) (fb : string) :
  rest = first_nonempty cs fb -> or_string a rest = first_nonempty (a :: cs) fb.
Proof. intros ->. reflexivity. Qed.

Lemma or_attribute_first_nonempty (a : option string) (rest : string)
    (cs : list string) (fb : string) :
  rest = first_nonempty cs fb ->
  or_attribute a rest = first_nonempty (attribute_or_empty a :: cs) fb.
Proof. intros ->. destruct a; reflexivity. Qed.





(** [forEach], one element at a time. *)
Lemma forEach_fst_cons {S : Type} (sel : Element -> bool)
    (f : Element -> S -> Element * S) (e : Element) (rest : list Element)
    (st : S) :
  fst (forEach sel f (e :: rest) st)
  = (if sel e then fst (f e st) else e)
    :: fst (forEach sel f rest (if sel e then snd (f e st) else st)).
Proof.
  simpl. destruct (sel e).
  - destruct (f e st) as [e1 st1]. simpl.
    destruct (forEach sel f rest st1). reflexivity.
  - destruct (forEach sel f rest st). reflexivity.
Qed.

Lemma forEach_snd_cons {S : Type} (sel : Element -> bool)
    (f : Element -> S -> Element * S) (e : Element) (rest : list Element)
    (st : S) :
  snd (forEach sel f (e :: rest) st)
  = snd (forEach sel f rest (if sel e then snd (f e st) else st)).
Proof.
  simpl. destruct (sel e).
  - destruct (f e st) as [e1 st1]. simpl.
    destruct (forEach sel f rest st1). reflexivity.
  - destruct (forEach sel f rest st). reflexivity.
Qed.

(** When the element a callback leaves does not depend on the threaded
    state, the sweep is a [map]. *)
Lemma forEach_fst_map {S : Type} (sel : Element -> bool)
    (f : Element -> S -> Element * S) (g : Element -> Element) :
  (forall e st, fst (f e st) = g e) ->
  forall els st,
    fst (forEach sel f els st) = map (fun e => if sel e then g e else e) els.
Proof.
  intros Hg els. induction els as [|e rest IH]; intros st; [reflexivity|].
  rewrite forEach_fst_cons, IH, Hg. reflexivity.
Qed.

(** What the callback of the button sweep leaves in the element does not
    depend on the document head. *)
Lemma annotate_button_fst (b : Element) (hd : list Element) :
  fst (annotate_button b hd) = annotated b.
Proof.
  unfold annotated, annotate_button.
  destruct (negb (hasAttribute "aria-label" b));
    match goal with
    | |- context [contains "has-focus-style" (classList ?x)] =>
        destruct (negb (contains "has-focus-style" (classList x)))
    end; reflexivity.
Qed.

(** The callback appends one style element to the head exactly when the
    button lacks the marker class. *)
Lemma annotate_button_snd (b : Element) (hd : list Element) :
  snd (annotate_button b hd)
  = hd ++ (if contains "has-focus-style" (classList b)
           then [] else [focus_style]).
Proof.
  unfold annotate_button.
  destruct (negb (hasAttribute "aria-label" b)); cbn [classList setAttribute];
    destruct (contains "has-focus-style" (classList b)); simpl;
    try rewrite app_nil_r; reflexivity.
Qed.

Lemma sweep_head (els : list Element) :
  forall hd : list Element,
    snd (forEach (is_tag "button") annotate_button els hd)
    = hd ++ repeat focus_style (length (filter lacks_marker els)).
Proof.
  induction els as [|e rest IH]; intros hd.
  - simpl. rewrite app_nil_r. reflexivity.
  - rewrite forEach_snd_cons, IH. unfold lacks_marker at 2. simpl filter.
    fold lacks_marker.
    destruct (is_tag "button" e); simpl andb.
    + rewrite annotate_button_snd.
      destruct (contains "has-focus-style" (classList e)); simpl;
        [rewrite app_nil_r | rewrite <- app_assoc]; reflexivity.
    + reflexivity.
Qed.

Lemma addButtonAccessibility_head (d : Document) :
  head (addButtonAccessibility d)
  = head d ++ repeat focus_style (length (filter lacks_marker (body d))).
Proof.
  unfold addButtonAccessibility. rewrite <- sweep_head.
  destruct (forEach (is_tag "button") annotate_button (body d) (head d)).
  reflexivity.
Qed.

Lemma addButtonAccessibility_body (d : Document) :
  body (addButtonAccessibility d)
  = map (fun e => if is_tag "button" e then annotated e else e) (body d).
Proof.
  unfold addButtonAccessibility.
  rewrite <- (forEach_fst_map (is_tag "button") annotate_button annotated
                annotate_button_fst (body d) (head d)).
  destruct (forEach (is_tag "button") annotate_button (body d) (head d)).
  reflexivity.
Qed.

Lemma annotated_label (b : Element) :
  getAttribute "aria-label" (annotated b)
  = Some (match getAttribute "aria-label" b with
          | Some v => v
          | None => getButtonLabel b
          end).
Proof.
  unfold annotated, annotate_button, hasAttribute.
  destruct (getAttribute "aria-label" b) as [v|] eqn:E; simpl negb; cbv iota.
  - destruct (negb (contains "has-focus-style" (classList b))); exact E.
  - cbn [classList setAttribute].
    destruct (negb (contains "has-focus-style" (classList b)));
      unfold getAttribute; simpl; apply lookup_store_same.
Qed.

(** *** [trim] on plain and on blank texts *)








(** *** The focus style rule *)

Lemma contains_add (c : string) (cl : list string) :
  contains c (add c cl) = true.
Proof.
  unfold add. destruct (contains c cl) eqn:E; [exact E|].
  unfold contains. rewrite existsb_app. simpl.
  rewrite String.eqb_refl, orb_true_r. reflexivity.
Qed.

Lemma annotated_marked (b : Element) :
  contains "has-focus-style" (classList (annotated b)) = true.
Proof.
  unfold annotated, annotate_button.
  destruct (negb (hasAttribute "aria-label" b)); cbn [classList setAttribute];
    destruct (contains "has-focus-style" (classList b)) eqn:E; simpl;
    try exact E; apply contains_add.
Qed.

Lemma filter_focus_repeat (n : nat) :
  filter is_focus_style (repeat focus_style n) = repeat focus_style n.
Proof.
  induction n as [|n IH]; [reflexivity|].
  simpl repeat. simpl filter.
  change (is_focus_style focus_style) with true. cbv iota.
  f_equal. exact IH.
Qed.

Lemma detectHighContrastMode_head (d : Document) :
  head (detectHighContrastMode d)
  = head d ++ (if forcedColors d then [high_contrast_style] else []).
Proof.
  unfold detectHighContrastMode. destruct (forcedColors d); simpl;
    [|rewrite app_nil_r]; reflexivity.
Qed.

Lemma init_head (a : t) (d : Document) :
  initialized a = false ->
  head (snd (init a d))
  = head d ++ repeat focus_style (length (filter lacks_marker (body d)))
    ++ (if forcedColors d then [high_contrast_style] else []).
Proof.
  intros Ha. unfold init. rewrite Ha. cbn [snd head].
  rewrite detectHighContrastMode_head.
  change (head (addKeyboardNavigation
                  (addImageAccessibility (addButtonAccessibility d))))
    with (head (addButtonAccessibility d)).
  change (forcedColors (addKeyboardNavigation
                          (addImageAccessibility (addButtonAccessibility d))))
    with (forcedColors (addButtonAccessibility d)).
  rewrite addButtonAccessibility_head, <- app_assoc.
  assert (Hf : forcedColors (addButtonAccessibility d) = forcedColors d).
  { unfold addButtonAccessibility.
    destruct (forEach (is_tag "button") annotate_button (body d) (head d)).
    reflexivity. }
  rewrite Hf. reflexivity.
Qed.

(** C5, as the code has it. The guard is the marker class of each button:
    a first [init] adds one copy of the focus style rule for every button
    that lacks the marker class, and every button leaves the sweep with the
    marker class. *)
Theorem focus_style_injected_per_unmarked_button :
  forall (a : t) (d : Document),
    initialized a = false ->
    injected_focus_styles d (snd (init a d))
    = length (filter lacks_marker (body d)) /\
    (forall b : Element,
       In b (body (addButtonAccessibility d)) -> lacks_marker b = false).
Proof.
  intros a d Ha. split.
  - unfold injected_focus_styles, count_focus_styles.
    rewrite (init_head a d Ha), !filter_app, !length_app, filter_focus_repeat,
      repeat_length.
    destruct (forcedColors d); simpl; lia.
  - intros b Hb. rewrite addButtonAccessibility_body in Hb.
    apply in_map_iff in Hb. destruct Hb as (e & <- & _).
    unfold lacks_marker. destruct (is_tag "button" e) eqn:E.
    + rewrite annotated_marked, andb_false_r. reflexivity.
    + rewrite E. reflexivity.
Qed.

Lemma focus_style_injected_per_unmarked_button_witness :
  injected_focus_styles Samples.two_buttons (snd (init new Samples.two_buttons))
  = 2.
Proof.
  destruct (focus_style_injected_per_unmarked_button new Samples.two_buttons
              eq_refl) as (H & _).
  rewrite H. reflexivity.
Defined.

(** C5, as stated, fails: on a page with two buttons the sweep of [init]
    leaves two copies of the focus style rule in the document. *)
Lemma focus_style_injected_twice :
  count_focus_styles Samples.two_buttons = 0 /\
  count_focus_styles (snd (init new Samples.two_buttons)) = 2 /\
  ~ injected_focus_styles Samples.two_buttons
      (snd (init new Samples.two_buttons)) <= 1.
Proof.
  split; [reflexivity|]. split; [reflexivity|].
  vm_compute. lia.
Qed.

(** *** The live region *)

Lemma find_index_some (p : Element -> bool) (l : list Element) :
  forall i, find_index p l = Some i ->
            exists e, nth_error l i = Some e /\ p e = true.
Proof.
  induction l as [|x l IH]; intros i H; simpl in H; [discriminate|].
  destruct (p x) eqn:E.
  - injection H as <-. exists x. auto.
  - destruct (find_index p l) as [j|]; [|discriminate].
    injection H as <-. apply (IH j eq_refl).
Qed.

Lemma find_index_update (p : Element -> bool) (f : Element -> Element) :
  (forall e, p (f e) = p e) ->
  forall l i, find_index p (update_nth i f l) = find_index p l.
Proof.
  intros Hp l. induction l as [|x l IH]; intros i; [reflexivity|].
  destruct i as [|i]; simpl.
  - rewrite Hp. reflexivity.
  - rewrite IH. reflexivity.
Qed.

Lemma find_index_snoc (p : Element -> bool) (x : Element) (l : list Element) :
  find_index p l = None -> p x = true ->
  find_index p (l ++ [x]) = Some (length l).
Proof.
  intros Hn Hx. induction l as [|y l IH]; simpl in *.
  - rewrite Hx. reflexivity.
  - destruct (p y); [discriminate|].
    destruct (find_index p l); [discriminate|].
    rewrite IH; reflexivity.
Qed.

Lemma find_index_app_some (p : Element -> bool) (x : Element)
    (l : list Element) (i : nat) :
  find_index p l = Some i -> find_index p (l ++ [x]) = Some i.
Proof.
  revert i. induction l as [|y l IH]; intros i H; simpl in *; [discriminate|].
  destruct (p y); [exact H|].
  destruct (find_index p l) as [j|]; [|discriminate].
  rewrite (IH j eq_refl). exact H.
Qed.

Lemma nth_error_update (f : Element -> Element) (l : list Element) :
  forall i j,
    nth_error (update_nth i f l) j
    = if Nat.eqb i j then option_map f (nth_error l j) else nth_error l j.
Proof.
  induction l as [|x l IH]; intros i j.
  - simpl. destruct (Nat.eqb i j), j; reflexivity.
  - destruct i as [|i], j as [|j]; simpl; try reflexivity. apply IH.
Qed.

Lemma getElementById_write_text (name : string) (r : NodeRef) (txt : string)
    (d : Document) :
  getElementById name (write_text r txt d) = getElementById name d.
Proof.
  unfold getElementById. destruct r as [i|i]; simpl;
    rewrite find_index_update by reflexivity; reflexivity.
Qed.

Lemma deref_write_text (r r' : NodeRef) (txt : string) (d : Document) :
  deref r (write_text r' txt d)
  = if NodeRef_eqb r' r
    then option_map (set_textContent txt) (deref r d)
    else deref r d.
Proof.
  destruct r as [j|j], r' as [i|i]; simpl; try reflexivity;
    apply nth_error_update.
Qed.

Lemma timers_write_text (r : NodeRef) (txt : string) (d : Document) :
  timers (write_text r txt d) = timers d.
Proof. destruct r; reflexivity. Qed.

Lemma NodeRef_eqb_refl (r : NodeRef) : NodeRef_eqb r r = true.
Proof. destruct r; simpl; apply Nat.eqb_refl. Qed.

Lemma NodeRef_eqb_eq (r1 r2 : NodeRef) : NodeRef_eqb r1 r2 = true -> r1 = r2.
Proof.
  destruct r1, r2; simpl; intros H; try discriminate;
    apply Nat.eqb_eq in H; subst; reflexivity.
Qed.

Lemma getElementById_valid (name : string) (d : Document) (r : NodeRef) :
  getElementById name d = Some r -> exists e, deref r d = Some e.
Proof.
  unfold getElementById.
  destruct (find_index (has_id name) (head d)) as [i|] eqn:Eh.
  - intros H. injection H as <-.
    destruct (find_index_some _ _ _ Eh) as (e & He & _). exists e. exact He.
  - destruct (find_index (has_id name) (body d)) as [i|] eqn:Eb;
      [|discriminate].
    intros H. injection H as <-.
    destruct (find_index_some _ _ _ Eb) as (e & He & _). exists e. exact He.
Qed.

Lemma same_but_text_refl (e : Element) : same_but_text e e.
Proof. repeat split. Qed.

Lemma same_but_text_trans (e1 e2 e3 : Element) :
  same_but_text e1 e2 -> same_but_text e2 e3 -> same_but_text e1 e3.
Proof.
  intros (A1 & A2 & A3 & A4) (B1 & B2 & B3 & B4).
  repeat split; congruence.
Qed.

(** Writing a text anywhere leaves the live region where it is and changes
    its text at most. *)
Lemma write_text_region (r r' : NodeRef) (e : Element) (txt : string)
    (d : Document) :
  region_at r e d ->
  region_at r (if NodeRef_eqb r' r then set_textContent txt e else e)
    (write_text r' txt d).
Proof.
  intros (Hg & Hd). split.
  - rewrite getElementById_write_text. exact Hg.
  - rewrite deref_write_text, Hd. destruct (NodeRef_eqb r' r); reflexivity.
Qed.

Lemma region_at_set_timers (r : NodeRef) (e : Element) (ts : list Timer)
    (d : Document) :
  region_at r e d -> region_at r e (set_timers ts d).
Proof. intros H. destruct r; exact H. Qed.

(** The region a call of [announceToScreenReader] writes to. *)
Lemma announce_region (m : string) (p : option string) (now : Z)
    (d : Document) :
  exists (r : NodeRef) (e : Element),
    region_at r e (announceToScreenReader m p now d) /\
    textContent e = m /\
    timers (announceToScreenReader m p now d)
    = timers d ++ [mkTimer (now + 1000) r] /\
    (forall r0 e0, region_at r0 e0 d -> r = r0 /\ same_but_text e0 e) /\
    (getElementById live_region_id d = None ->
     e = set_textContent m
           (new_live_region (match p with Some v => v | None => "polite" end))).
Proof.
  unfold announceToScreenReader.
  destruct (getElementById live_region_id d) as [r|] eqn:Eg.
  - destruct (getElementById_valid _ _ _ Eg) as (e & He).
    exists r, (set_textContent m e).
    assert (Hr : region_at r e d) by (split; assumption).
    pose proof (write_text_region r r e m d Hr) as Hw.
    rewrite NodeRef_eqb_refl in Hw.
    split; [apply region_at_set_timers; exact Hw|].
    split; [reflexivity|].
    split; [simpl; rewrite timers_write_text; reflexivity|].
    split; [|discriminate].
    intros r0 e0 (Hg0 & Hd0). rewrite Eg in Hg0. injection Hg0 as <-.
    rewrite He in Hd0. injection Hd0 as <-.
    split; [reflexivity | repeat split].
  - set (fresh := new_live_region match p with Some v => v | None => "polite" end).
    set (d' := set_body (body d ++ [fresh]) d).
    exists (InBody (length (body d))), (set_textContent m fresh).
    assert (Hr : region_at (InBody (length (body d))) fresh d').
    { unfold getElementById in Eg. split.
      - unfold getElementById, d'. simpl.
        destruct (find_index (has_id live_region_id) (head d)); [discriminate|].
        destruct (find_index (has_id live_region_id) (body d)) eqn:Eb;
          [discriminate|].
        rewrite (find_index_snoc _ fresh _ Eb); [reflexivity|].
        destruct p; reflexivity.
      - unfold d'. simpl. rewrite nth_error_app2 by lia.
        rewrite Nat.sub_diag. reflexivity. }
    pose proof (write_text_region _ (InBody (length (body d))) fresh m d' Hr)
      as Hw.
    rewrite NodeRef_eqb_refl in Hw.
    split; [apply region_at_set_timers; exact Hw|].
    split; [reflexivity|].
    split; [simpl; reflexivity|].
    split; [|reflexivity].
    intros r0 e0 (Hg0 & _). rewrite Eg in Hg0. discriminate Hg0.
Qed.

Lemma live_text_region (r : NodeRef) (e : Element) (d : Document) :
  region_at r e d -> live_text d = Some (textContent e).
Proof.
  intros (Hg & Hd). unfold live_text, live_region. rewrite Hg, Hd. reflexivity.
Qed.

(** Running clear callbacks: the region stays where it is, only its text
    can change, and its text is empty at the end when one of the callbacks
    was aimed at it. *)
Lemma clear_all_region (ts : list Timer) :
  forall (d : Document) (r : NodeRef) (e : Element),
    region_at r e d ->
    exists e' : Element,
      region_at r e' (fold_left (fun d tm => clear tm d) ts d) /\
      same_but_text e e' /\
      timers (fold_left (fun d tm => clear tm d) ts d) = timers d /\
      ((exists tm, In tm ts /\ target tm = r) \/ textContent e = "" ->
       textContent e' = "").
Proof.
  induction ts as [|tm ts IH]; intros d r e Hr.
  - exists e. split; [exact Hr|]. split; [apply same_but_text_refl|].
    split; [reflexivity|]. intros [(tm & [] & _)|H]. exact H.
  - simpl fold_left. unfold clear at 2 4.
    pose proof (write_text_region r (target tm) e "" d Hr) as Hw.
    set (e1 := if NodeRef_eqb (target tm) r then set_textContent "" e else e)
      in Hw.
    destruct (IH _ r e1 Hw) as (e' & Hr' & Hs & Ht & Hc).
    exists e'. split; [exact Hr'|].
    split.
    { apply (same_but_text_trans e e1 e'); [|exact Hs].
      unfold e1. destruct (NodeRef_eqb (target tm) r); repeat split. }
    split; [rewrite Ht; apply timers_write_text|].
    intros Hyp. apply Hc.
    destruct Hyp as [(tm' & [<-|Hin] & Htg)|He].
    + right. unfold e1. rewrite Htg, NodeRef_eqb_refl. reflexivity.
    + left. exists tm'. auto.
    + right. unfold e1. destruct (NodeRef_eqb (target tm) r);
        [reflexivity | exact He].
Qed.

Lemma advance_region (now : Z) (d : Document) (r : NodeRef) (e : Element) :
  region_at r e d ->
  exists e' : Element,
    region_at r e' (advance now d) /\
    same_but_text e e' /\
    timers (advance now d)
    = filter (fun tm => negb (is_due now tm)) (timers d) /\
    ((exists tm, In tm (timers d) /\ is_due now tm = true /\ target tm = r) ->
     textContent e' = "").
Proof.
  intros Hr. unfold advance.
  destruct (clear_all_region (filter (is_due now) (timers d))
              (set_timers (filter (fun tm => negb (is_due now tm)) (timers d)) d)
              r e (region_at_set_timers _ _ _ _ Hr))
    as (e' & Hr' & Hs & Ht & Hc).
  exists e'. split; [exact Hr'|]. split; [exact Hs|].
  split; [exact Ht|].
  intros (tm & Hin & Hdue & Htg). apply Hc. left. exists tm.
  split; [|exact Htg]. apply filter_In. auto.
Qed.

(** Later calls, whatever their messages, priorities and times, keep the
    region and change its text at most. *)
Lemma later_calls_region (cs : list Call) :
  forall (d : Document) (r : NodeRef) (e : Element),
    region_at r e d ->
    exists e' : Element,
      region_at r e' (later_calls cs d) /\ same_but_text e e'.
Proof.
  induction cs as [|c cs IH]; intros d r e Hr.
  - exists e. split; [exact Hr | apply same_but_text_refl].
  - unfold later_calls. simpl fold_left. unfold later_call at 2.
    destruct (advance_region (call_time c) d r e Hr) as (e1 & Hr1 & Hs1 & _).
    destruct (announce_region (call_message c) (call_priority c) (call_time c)
                (advance (call_time c) d))
      as (r2 & e2 & Hr2 & _ & _ & Hsame & _).
    destruct (Hsame r e1 Hr1) as (-> & Hs2).
    destruct (IH _ r e2 Hr2) as (e' & Hr' & Hs').
    exists e'. split; [exact Hr'|].
    apply (same_but_text_trans e e1 e'); [exact Hs1|].
    apply (same_but_text_trans e1 e2 e'); assumption.
Qed.

Lemma timers_clear_all (ts : list Timer) :
  forall d : Document,
    timers (fold_left (fun d tm => clear tm d) ts d) = timers d.
Proof.
  induction ts as [|tm ts IH]; intros d; [reflexivity|].
  simpl. rewrite IH. apply timers_write_text.
Qed.

Lemma timers_advance (now : Z) (d : Document) :
  timers (advance now d) = filter (fun tm => negb (is_due now tm)) (timers d).
Proof. unfold advance. rewrite timers_clear_all. reflexivity. Qed.

(** A pending callback survives later calls that come before it is due. *)
Lemma later_calls_timer (tm : Timer) (cs : list Call) :
  (forall c, In c cs -> (call_time c < due tm)%Z) ->
  forall d : Document,
    In tm (timers d) -> In tm (timers (later_calls cs d)).
Proof.
  induction cs as [|c cs IH]; intros Hcs d Hin; [exact Hin|].
  unfold later_calls. simpl fold_left. apply IH.
  - intros c' Hc'. apply Hcs. right. exact Hc'.
  - unfold later_call.
    destruct (announce_region (call_message c) (call_priority c) (call_time c)
                (advance (call_time c) d))
      as (r2 & e2 & _ & _ & Ht & _).
    rewrite Ht, timers_advance. apply in_or_app. left.
    apply filter_In. split; [exact Hin|].
    unfold is_due. pose proof (Hcs c (or_introl eq_refl)).
    destruct (Z.leb_spec (due tm) (call_time c)); [lia | reflexivity].
Qed.

(** C6. Right after [announceToScreenReader(m, p)] the text of the live
    region is [m].  The call adds its clear callback, due 1000 ms later, to
    the pending ones and removes none; newer calls that arrive before the
    callback is due leave it pending; and when the clock reaches the due
    time the text of the region is empty, whatever the newer calls wrote. *)
Theorem announcement_shown_then_cleared :
  forall (d : Document) (m : string) (p : option string) (now : Z)
         (cs : list Call),
    (forall c, In c cs -> (call_time c < now + 1000)%Z) ->
    let d1 := announceToScreenReader m p now d in
    let d2 := later_calls cs d1 in
    live_text d1 = Some m /\
    (exists r : NodeRef,
       getElementById live_region_id d1 = Some r /\
       timers d1 = timers d ++ [mkTimer (now + 1000) r] /\
       In (mkTimer (now + 1000) r) (timers d2)) /\
    live_text (advance (now + 1000) d2) = Some "".
Proof.
  intros d m p now cs Hcs d1 d2.
  destruct (announce_region m p now d) as (r & e & Hr & Htxt & Ht & _ & _).
  fold d1 in Hr, Ht.
  assert (Hin1 : In (mkTimer (now + 1000) r) (timers d1)).
  { rewrite Ht. apply in_or_app. right. left. reflexivity. }
  assert (Hin2 : In (mkTimer (now + 1000) r) (timers d2)).
  { apply later_calls_timer; [exact Hcs | exact Hin1]. }
  destruct (later_calls_region cs d1 r e Hr) as (e2 & Hr2 & _).
  fold d2 in Hr2.
  destruct (advance_region (now + 1000) d2 r e2 Hr2) as (e3 & Hr3 & _ & _ & Hc).
  split; [|split].
  - rewrite (live_text_region r e d1 Hr), Htxt. reflexivity.
  - exists r. destruct Hr as (Hg & _). auto.
  - rewrite (live_text_region r e3 _ Hr3), Hc; [reflexivity|].
    exists (mkTimer (now + 1000) r). split; [exact Hin2|].
    split; [|reflexivity]. unfold is_due. simpl. apply Z.leb_refl.
Qed.

Lemma announcement_shown_then_cleared_witness :
  let d1 := announceToScreenReader "test" (Some "polite") 0 (Samples.page []) in
  let d2 := later_calls [Samples.newer_call] d1 in
  live_text d1 = Some "test" /\
  live_text d2 = Some "next" /\
  live_text (advance 1000 d2) = Some "".
Proof.
  intros d1 d2.
  assert (H : forall c, In c [Samples.newer_call] -> (call_time c < 0 + 1000)%Z).
  { intros c [<-|[]]. simpl. lia. }
  destruct (announcement_shown_then_cleared (Samples.page []) "test"
              (Some "polite") 0 [Samples.newer_call] H) as (H1 & _ & H3).
  split; [exact H1|]. split; [reflexivity | exact H3].
Defined.

(** C10. Once a call of [announceToScreenReader] has found or created the
    live region, later calls (with any message, priority and time, and the
    clear callbacks that run in between) find the same element and leave
    its attributes, among them [aria-live] and [aria-atomic], its classes
    and its style as they were; when the first call created the region,
    [aria-live] is the priority of that call. *)
Theorem live_region_priority_fixed_at_creation :
  forall (d : Document) (m : string) (p : option string) (now : Z)
         (cs : list Call),
    let d1 := announceToScreenReader m p now d in
    let d2 := later_calls cs d1 in
    exists (r : NodeRef) (e1 e2 : Element),
      region_at r e1 d1 /\ region_at r e2 d2 /\
      getAttribute "aria-live" e2 = getAttribute "aria-live" e1 /\
      getAttribute "aria-atomic" e2 = getAttribute "aria-atomic" e1 /\
      cssText e2 = cssText e1 /\
      same_but_text e1 e2 /\
      (getElementById live_region_id d = None ->
       getAttribute "aria-live" e2
       = Some (match p with Some v => v | None => "polite" end) /\
       getAttribute "aria-atomic" e2 = Some "true").
Proof.
  intros d m p now cs d1 d2.
  destruct (announce_region m p now d) as (r & e1 & Hr & _ & _ & _ & Hnew).
  fold d1 in Hr.
  destruct (later_calls_region cs d1 r e1 Hr) as (e2 & Hr2 & Hs).
  fold d2 in Hr2.
  exists r, e1, e2.
  pose proof Hs as (_ & Ha & _ & Hc).
  unfold getAttribute. rewrite Ha.
  split; [exact Hr|]. split; [exact Hr2|].
  split; [reflexivity|]. split; [reflexivity|].
  split; [exact Hc|]. split; [exact Hs|].
  intros Hnone. rewrite (Hnew Hnone). destruct p; split; reflexivity.
Qed.

Lemma live_region_priority_fixed_at_creation_witness :
  option_map (getAttribute "aria-live")
    (live_region
       (later_calls [Samples.newer_call]
          (announceToScreenReader "test" None 0 (Samples.page []))))
  = Some (Some "polite").
Proof.
  destruct (live_region_priority_fixed_at_creation (Samples.page []) "test"
              None 0 [Samples.newer_call])
    as (r & e1 & e2 & _ & (Hg & Hd) & _ & _ & _ & _ & Hnew).
  unfold live_region. rewrite Hg, Hd. simpl.
  destruct (Hnew eq_refl) as (Hl & _). rewrite Hl. reflexivity.
Defined.

End AccessibilityFacts.

(** ** The [init] guards *)

Module InitFacts.








End InitFacts.

(** * Further properties *)

(** ** Fault reporter: statistics, return value, clearing *)

Module ErrorHandlerExtra.
Import JSArray JSArrayFacts ErrorHandler ErrorHandlerFacts.

Lemma slice_last_slice_last {A : Type} (n m : nat) (l : list A) :
  n <= m -> slice_last n (slice_last m l) = slice_last n l.
Proof.
  intros H. unfold slice_last. rewrite length_skipn, skipn_skipn.
  f_equal. lia.
Qed.

(** X1. Whatever the number of faults captured on a new handler,
    [getErrorStats()] reports [min(50, n)] as total and the records of the
    10 most recent faults (of all of them when there are fewer) as
    [recent], in arrival order. *)
Theorem stats_total_and_recent :
  forall (name : option string) (w : Window) (faults : list Fault),
    let stats := getErrorStats (fst (capture_all faults (new name, w))) in
    total stats = Nat.min 50 (length faults) /\
    recent stats
    = map (record_of (gameName (new name))) (slice_last 10 faults) /\
    (length faults <= 50 ->
     errors (fst (capture_all faults (new name, w)))
     = map (record_of (gameName (new name))) faults).
Proof.
  intros name w faults stats.
  destruct (capture_all_errors faults (new name) w [] eq_refl) as (_ & _ & He).
  simpl app in He. change (maxErrors (new name)) with 50 in He.
  subst stats. unfold getErrorStats, total, recent. rewrite He.
  rewrite slice_last_length, length_map.
  split; [reflexivity|]. split.
  - rewrite slice_last_slice_last by lia. apply slice_last_map.
  - intros Hle. apply slice_last_all. rewrite length_map. exact Hle.
Qed.

Lemma count_of_bump (key k : string) (acc : list (string * nat)) :
  count_of key (bump k acc)
  = count_of key acc + (if String.eqb k key then 1 else 0).
Proof.
  induction acc as [|[k0 n] rest IH]; simpl.
  - destruct (String.eqb k key); reflexivity.
  - destruct (String.eqb k0 k) eqn:E0; simpl.
    + apply String.eqb_eq in E0. subst k0.
      destruct (String.eqb k key); lia.
    + destruct (String.eqb k0 key) eqn:E1; [|exact IH].
      destruct (String.eqb k key) eqn:E2; [|lia].
      apply String.eqb_eq in E1, E2. subst. rewrite String.eqb_refl in E0.
      discriminate E0.
Qed.

Lemma keys_bump (k : string) (acc : list (string * nat)) :
  map fst (bump k acc)
  = if existsb (String.eqb k) (map fst acc) then map fst acc
    else map fst acc ++ [k].
Proof.
  induction acc as [|[k0 n] rest IH]; simpl; [reflexivity|].
  destruct (String.eqb k0 k) eqn:E0; simpl.
  - rewrite String.eqb_sym, E0. reflexivity.
  - rewrite String.eqb_sym, E0, IH. simpl.
    destruct (existsb (String.eqb k) (map fst rest)); reflexivity.
Qed.

Lemma existsb_eqb_In (k : string) (l : list string) :
  existsb (String.eqb k) l = true <-> In k l.
Proof.
  rewrite existsb_exists. split.
  - intros (x & Hx & E). apply String.eqb_eq in E. subst. exact Hx.
  - intros H. exists k. split; [exact H | apply String.eqb_refl].
Qed.

Lemma NoDup_keys_bump (k : string) (acc : list (string * nat)) :
  NoDup (map fst acc) -> NoDup (map fst (bump k acc)).
Proof.
  intros H. rewrite keys_bump.
  destruct (existsb (String.eqb k) (map fst acc)) eqn:E; [exact H|].
  apply NoDup_app.
  - exact H.
  - constructor; [intros [] | constructor].
  - intros x Hx [<-|[]]. apply existsb_eqb_In in Hx. congruence.
Qed.

Lemma total_bump (k : string) (acc : list (string * nat)) :
  list_sum (map snd (bump k acc)) = S (list_sum (map snd acc)).
Proof.
  induction acc as [|[k0 n] rest IH]; simpl; [reflexivity|].
  destruct (String.eqb k0 k); simpl; [lia | rewrite IH; lia].
Qed.

Lemma positive_bump (k : string) (acc : list (string * nat)) :
  Forall (fun kn => 0 < snd kn) acc ->
  Forall (fun kn => 0 < snd kn) (bump k acc).
Proof.
  induction acc as [|[k0 n] rest IH]; simpl; intros H.
  - constructor; [simpl; lia | constructor].
  - inversion H as [|? ? Hn Hrest]; subst.
    destruct (String.eqb k0 k); constructor; simpl in *; try lia; auto.
Qed.

Lemma fold_bump (es : list ErrorInfo) :
  forall acc : list (string * nat),
    NoDup (map fst acc) ->
    Forall (fun kn => 0 < snd kn) acc ->
    let out := fold_left (fun acc e => bump (source e) acc) es acc in
    (forall key, count_of key out = count_of key acc + count_source key es) /\
    NoDup (map fst out) /\
    Forall (fun kn => 0 < snd kn) out /\
    list_sum (map snd out) = list_sum (map snd acc) + length es.
Proof.
  induction es as [|e es IH]; intros acc Hnd Hpos; cbn zeta.
  - simpl. repeat split; auto;
      try (intros key; unfold count_source; simpl; lia).
  - simpl fold_left.
    destruct (IH (bump (source e) acc) (NoDup_keys_bump _ _ Hnd)
                (positive_bump _ _ Hpos)) as (Hc & Hn & Hp & Hs).
    repeat split; auto.
    + intros key. rewrite Hc, count_of_bump. unfold count_source. simpl.
      destruct (String.eqb (source e) key); simpl; lia.
    + rewrite Hs, total_bump. simpl. lia.
Qed.

(** X2. When no stored record carries a source tag that names a member of
    [Object.prototype], [getErrorStats().bySource] maps every source tag to
    the number of stored records that carry it: the entry for a tag is that
    number, a tag is listed once and only with a positive count, and the
    counts add up to [total]. *)
Theorem bySource_counts_records :
  forall h : t,
    Forall (fun e => inherited_key (source e) = false) (errors h) ->
    let stats := getErrorStats h in
    (forall key, count_of key (bySource stats) = count_source key (errors h)) /\
    NoDup (map fst (bySource stats)) /\
    Forall (fun kn => 0 < snd kn) (bySource stats) /\
    list_sum (map snd (bySource stats)) = total stats.
Proof.
  intros h _ stats.
  destruct (fold_bump (errors h) [] (NoDup_nil _) (Forall_nil _))
    as (Hc & Hn & Hp & Hs).
  subst stats. unfold getErrorStats, bySource, total.
  repeat split; auto.
Qed.

Lemma bySource_counts_records_witness :
  let h := fst (capture_all (map Samples.sample_fault (seq 0 5))
                  (new None, Samples.empty_window)) in
  count_of "window.error" (bySource (getErrorStats h)) = 3 /\
  count_of "unknown" (bySource (getErrorStats h)) = 2 /\
  count_of "requestAnimationFrame" (bySource (getErrorStats h)) = 0.
Proof.
  intros h.
  assert (Hk : Forall (fun e => inherited_key (source e) = false) (errors h))
    by (repeat constructor).
  destruct (bySource_counts_records h Hk) as (Hc & _).
  rewrite !Hc. repeat split.
Defined.

(** X3. [handleError] returns the record it has just stored: with a
    positive [maxErrors] the returned record is the newest entry of the
    ring.  It carries the handler's game name, the clock reading and the
    source tag (['unknown'] when none is given).  The call adds one error
    line to the console and changes nothing else: the name, the capacity
    and the [initialized] flag of the handler, and the listeners and all
    the patches of the page, are as they were. *)
Theorem handleError_returns_newest_record :
  forall (now : string) (error : JSValue) (src : option string)
         (h : t) (w : Window),
    0 < maxErrors h ->
    let r := handleError now error src h w in
    let info := fst (fst r) in
    let h' := snd (fst r) in
    (forall d, last (errors h') d = info) /\
    game info = gameName h /\
    source info = match src with Some s => s | None => "unknown" end /\
    timestamp info = now /\
    gameName h' = gameName h /\ maxErrors h' = maxErrors h /\
    initialized h' = initialized h /\
    (exists line : ConsoleEntry,
       entry_level line = LevelError /\
       console (snd r) = console w ++ [line]) /\
    listeners (snd r) = listeners w /\
    fillRectWrappers (snd r) = fillRectWrappers w /\
    drawImageWrappers (snd r) = drawImageWrappers w /\
    clearRectWrappers (snd r) = clearRectWrappers w /\
    rafWrappers (snd r) = rafWrappers w.
Proof.
  intros now error src h w Hmax r info h'.
  split.
  { intros d. subst h' info r. unfold handleError.
    cbn [fst snd errors set_errors].
    apply (push_capped_last (maxErrors h) (errors h) _ d Hmax). }
  repeat (split; [reflexivity|]).
  split; [|repeat split].
  subst r. unfold handleError, log. cbn [snd console].
  eexists. split; [|reflexivity]. reflexivity.
Qed.

Lemma handleError_returns_newest_record_witness :
  let r := handleError "2024-01-01T00:00:00.000Z"
             (ErrorObject "boom" (Some "at draw")) None (new None)
             Samples.empty_window in
  last (errors (snd (fst r))) (fst (fst r)) = fst (fst r) /\
  source (fst (fst r)) = "unknown" /\ message (fst (fst r)) = "boom".
Proof.
  intros r.
  assert (Hmax : 0 < maxErrors (new None)) by (simpl; lia).
  destruct (handleError_returns_newest_record "2024-01-01T00:00:00.000Z"
              (ErrorObject "boom" (Some "at draw")) None (new None)
              Samples.empty_window Hmax) as (Hl & _ & Hs & _).
  split; [apply Hl|]. split; [exact Hs | reflexivity].
Defined.

(** X4. [clearErrors()] forgets the whole history: right after it the
    statistics are empty, and the ring then holds the records of the
    faults captured since (the last [maxErrors] of them), whatever was
    stored before. *)
Theorem clearErrors_restarts_ring :
  forall (h : t) (w : Window) (faults : list Fault),
    let stats := getErrorStats (clearErrors h) in
    total stats = 0 /\ recent stats = [] /\ bySource stats = [] /\
    errors (fst (capture_all faults (clearErrors h, w)))
    = map (record_of (gameName h)) (slice_last (maxErrors h) faults).
Proof.
  intros h w faults stats. repeat split.
  destruct (capture_all_errors faults (clearErrors h) w [] eq_refl)
    as (_ & _ & He).
  rewrite He. simpl app. apply slice_last_map.
Qed.

End ErrorHandlerExtra.

(** ** Sampler: samples, scheduling, report *)

Module PerformanceMonitorExtra.
Import JSArray JSArrayFacts PerformanceMonitor PerformanceMonitorFacts.

Lemma Math_round_mono (x y : Q) : (x <= y)%Q -> (Math_round x <= Math_round y)%Z.
Proof.
  intros H. unfold Math_round. apply Qfloor_resp_le.
  apply Qplus_le_compat; [exact H | apply Qle_refl].
Qed.

Lemma Math_round_lower (a : Z) (x : Q) :
  (inject_Z a <= x)%Q -> (a <= Math_round x)%Z.
Proof.
  intros H. apply Z.le_trans with (Math_round (inject_Z a)).
  - rewrite Math_round_Z. apply Z.le_refl.
  - apply Math_round_mono. exact H.
Qed.

Lemma Math_round_upper (b : Z) (x : Q) :
  (x <= inject_Z b)%Q -> (Math_round x <= b)%Z.
Proof.
  intros H. apply Z.le_trans with (Math_round (inject_Z b)).
  - apply Math_round_mono. exact H.
  - rewrite Math_round_Z. apply Z.le_refl.
Qed.

(** The rate computed on a report lies between 0 and the number of frames
    counted, because at least 1000 ms have passed. *)
Lemma sample_bounds (count : Z) (elapsed : Q) :
  (0 < count)%Z -> (1000 <= elapsed)%Q ->
  (0 <= Math_round (inject_Z count * 1000 / elapsed) <= count)%Z.
Proof.
  intros Hc He.
  assert (Hq : (0 < inject_Z count)%Q).
  { change 0%Q with (inject_Z 0). rewrite <- Zlt_Qlt. exact Hc. }
  assert (Hpos : (0 < elapsed)%Q) by lra.
  split.
  - apply Math_round_lower. apply Qle_shift_div_l; [exact Hpos|].
    change (inject_Z 0) with 0%Q. rewrite Qmult_0_l.
    apply Qmult_le_0_compat; lra.
  - apply Math_round_upper. apply Qle_shift_div_r; [exact Hpos|].
    apply Qmult_le_l; [exact Hq | exact He].
Qed.

Lemma push_capped_nonempty {A : Type} (cap : nat) (a : list A) (x : A) :
  0 < cap -> 0 < length (push_capped cap a x).
Proof.
  intros Hc. unfold push_capped.
  destruct (Nat.ltb_spec cap (length (push a x))) as [H|H].
  - rewrite shift_length. lia.
  - rewrite push_length. lia.
Qed.

Lemma push_capped_Forall {A : Type} (P : A -> Prop) (cap : nat)
    (a : list A) (x : A) :
  Forall P a -> P x -> Forall P (push_capped cap a x).
Proof.
  intros Ha Hx. unfold push_capped, push, shift.
  assert (H : Forall P (a ++ [x])).
  { apply Forall_app. split; [exact Ha | constructor; [exact Hx | constructor]]. }
  destruct (cap <? length (a ++ [x])); [|exact H].
  destruct (a ++ [x]); [constructor|]. inversion H; assumption.
Qed.

(** X5. A frame that arrives 1000 ms or more after the anchor records a
    rate between 0 and the number of frames counted since the anchor (this
    frame included), and the report then shows that rate as [currentFPS]. *)
Theorem reported_rate_bounded_by_frames :
  forall (now : Q) (m : t) (e : Env),
    (0 <= frameCount m)%Z ->
    Qle_bool 1000 (now - lastTime m) = true ->
    let m' := fst (measureFPS now m e) in
    exists rate : Z,
      fps (metrics m') = push_capped 60 (fps (metrics m)) rate /\
      (0 <= rate <= frameCount m + 1)%Z /\
      currentFPS (getPerformanceReport m') = rate /\
      frameCount m' = 0%Z /\ lastTime m' = now.
Proof.
  intros now m e Hc Hle m'.
  exists (Math_round (inject_Z (frameCount m + 1) * 1000 / (now - lastTime m))).
  subst m'. rewrite (measureFPS_reporting now m e Hle).
  cbn [fps metrics frameCount lastTime].
  split; [reflexivity|]. split.
  - apply sample_bounds; [lia | apply Qle_bool_iff; exact Hle].
  - split; [|split; reflexivity].
    unfold getPerformanceReport, currentFPS. cbn [fps metrics].
    pose proof (push_capped_nonempty 60 (fps (metrics m))
                  (Math_round (inject_Z (frameCount m + 1) * 1000
                               / (now - lastTime m)))) as Hne.
    destruct (Nat.ltb_spec 0 (length (push_capped 60 (fps (metrics m))
                (Math_round (inject_Z (frameCount m + 1) * 1000
                             / (now - lastTime m)))))) as [_|Hz]; [|lia].
    apply push_capped_last. lia.
Qed.

Lemma reported_rate_bounded_by_frames_witness :
  exists rate : Z,
    fps (metrics (fst (measureFPS 2500 (Samples.monitor_with [60%Z])
                         Samples.running_env))) = [60%Z; rate] /\
    (0 <= rate <= 1)%Z.
Proof.
  assert (H1 : (0 <= frameCount (Samples.monitor_with [60%Z]))%Z)
    by (simpl; lia).
  assert (H2 : Qle_bool 1000 (2500 - lastTime (Samples.monitor_with [60%Z]))
               = true) by reflexivity.
  destruct (reported_rate_bounded_by_frames 2500 (Samples.monitor_with [60%Z])
              Samples.running_env H1 H2) as (rate & Hf & Hb & _).
  exists rate. split; [rewrite Hf; reflexivity | exact Hb].
Defined.

Lemma measureFPS_frameCount (now : Q) (m : t) (e : Env) :
  (0 <= frameCount m)%Z -> (0 <= frameCount (fst (measureFPS now m e)))%Z.
Proof.
  intros H. unfold measureFPS.
  destruct (Qle_bool 1000 (now - lastTime m)); simpl; lia.
Qed.

Lemma step_nonnegative (st : t * Env) (ev : Event) :
  (0 <= frameCount (fst st))%Z ->
  Forall (fun s => 0 <= s)%Z (fps (metrics (fst st))) ->
  (0 <= frameCount (fst (step st ev)))%Z /\
  Forall (fun s => 0 <= s)%Z (fps (metrics (fst (step st ev)))).
Proof.
  intros Hc Hf. destruct st as [m e]. simpl fst in *.
  destruct ev as [now | reading now]; unfold step.
  - unfold frame. simpl snd. simpl fst. destruct (rafQueue e) as [|q].
    + simpl. auto.
    + split; [apply measureFPS_frameCount; exact Hc|].
      rewrite measureFPS_fps.
      destruct (Qle_bool 1000 (now - lastTime m)) eqn:E; [|exact Hf].
      apply push_capped_Forall; [exact Hf|].
      apply sample_bounds; [lia | apply Qle_bool_iff; exact E].
  - simpl fst. simpl snd. rewrite memoryTick_fps.
    split; [destruct reading; exact Hc | exact Hf].
Qed.

(** X6. Along every run of a new sampler the frame counter and every
    stored FPS sample are non-negative, whatever the clock readings are
    (also when the clock stands still or goes backwards). *)
Theorem fps_samples_never_negative :
  forall (name : option string) (t0 : Q) (e0 : Env) (evs : list Event),
    let m := fst (run evs (new name t0, e0)) in
    (0 <= frameCount m)%Z /\
    Forall (fun s => 0 <= s)%Z (fps (metrics m)) /\
    (0 <= minFPS (getPerformanceReport m))%Z.
Proof.
  intros name t0 e0 evs.
  assert (Hinv : forall evs st,
             (0 <= frameCount (fst st))%Z ->
             Forall (fun s => 0 <= s)%Z (fps (metrics (fst st))) ->
             (0 <= frameCount (fst (run evs st)))%Z /\
             Forall (fun s => 0 <= s)%Z (fps (metrics (fst (run evs st))))).
  { clear. induction evs as [|ev evs IH]; intros st Hc Hf; [simpl; auto|].
    unfold run. simpl fold_left.
    destruct (step_nonnegative st ev Hc Hf) as (Hc' & Hf').
    apply IH; assumption. }
  destruct (Hinv evs (new name t0, e0)) as (Hc & Hf);
    [simpl; lia | constructor |].
  cbn zeta. split; [exact Hc|]. split; [exact Hf|].
  unfold getPerformanceReport, minFPS.
  destruct (0 <? length (fps (metrics (fst (run evs (new name t0, e0))))));
    [|lia].
  destruct (fps (metrics (fst (run evs (new name t0, e0))))) as [|x r];
    [simpl; lia|].
  simpl Math_min. inversion Hf as [|? ? Hx Hr]; subst.
  clear Hf. revert x Hx. induction r as [|y r IHr]; intros x Hx; [exact Hx|].
  simpl. inversion Hr; subst. apply IHr; [assumption | lia].
Qed.

(** *** Scheduling *)

Lemma measureFPS_env (now : Q) (m : t) (e : Env) :
  rafQueue (snd (measureFPS now m e)) = S (rafQueue e) /\
  intervals (snd (measureFPS now m e)) = intervals e.
Proof.
  unfold measureFPS. destruct (Qle_bool 1000 (now - lastTime m)); simpl;
    [|auto].
  destruct (Math_round (inject_Z (frameCount m + 1) * 1000
                        / (now - lastTime m)) <? 30)%Z; simpl; auto.
Qed.

Lemma step_env (st : t * Env) (ev : Event) :
  rafQueue (snd (step st ev)) = rafQueue (snd st) /\
  intervals (snd (step st ev)) = intervals (snd st).
Proof.
  destruct st as [m e]. destruct ev as [now | reading now]; unfold step.
  - unfold frame. simpl snd. simpl fst.
    destruct (rafQueue e) as [|q] eqn:E; [simpl; auto|].
    destruct (measureFPS_env now m
                {| rafQueue := q; intervals := intervals e;
                   console := console e |}) as (Hq & Hi).
    rewrite Hq, Hi. auto.
  - simpl fst. simpl snd. destruct reading as [mem|]; [|auto].
    unfold memoryTick.
    destruct (usage_high (usedJSHeapSize mem) (jsHeapSizeLimit mem));
      simpl; auto.
Qed.

Lemma run_env (evs : list Event) :
  forall st : t * Env,
    rafQueue (snd (run evs st)) = rafQueue (snd st) /\
    intervals (snd (run evs st)) = intervals (snd st).
Proof.
  induction evs as [|ev evs IH]; intros st; [simpl; auto|].
  unfold run. simpl fold_left.
  destruct (IH (step st ev)) as (Hq & Hi). unfold run in Hq, Hi.
  destruct (step_env st ev) as (Hq' & Hi').
  rewrite Hq, Hi, Hq', Hi'. auto.
Qed.

(** X7. The FPS loop neither stops nor multiplies: every [measureFPS]
    callback queues exactly one successor, so after [init] on a page with
    [q] queued callbacks and [i] memory intervals, every later state has
    [q + 1] queued callbacks, and [i + 1] intervals when
    [performance.memory] exists and [i] when it does not. *)
Theorem fps_loop_keeps_one_callback_queued :
  forall (now : Q) (hasMemory : bool) (m : t) (e : Env) (evs : list Event),
    initialized m = false ->
    let st := run evs (init now hasMemory m e) in
    rafQueue (snd st) = S (rafQueue e) /\
    intervals (snd st) = (if hasMemory then S (intervals e) else intervals e) /\
    initialized (fst (init now hasMemory m e)) = true /\
    loadTime (metrics (fst (init now hasMemory m e))) = Some now.
Proof.
  intros now hasMemory m e evs Hi st.
  destruct (run_env evs (init now hasMemory m e)) as (Hq & Hn).
  subst st. rewrite Hq, Hn. unfold init. rewrite Hi.
  destruct hasMemory; simpl; auto.
Qed.

Lemma fps_loop_keeps_one_callback_queued_witness :
  rafQueue (snd (run [Frame 16; MemoryTick None 5000; Frame 1016]
                   (init 3 true (new None 0) (mkEnv 0 0 [])))) = 1 /\
  intervals (snd (run [Frame 16; MemoryTick None 5000; Frame 1016]
                    (init 3 true (new None 0) (mkEnv 0 0 [])))) = 1.
Proof.
  destruct (fps_loop_keeps_one_callback_queued 3 true (new None 0)
              (mkEnv 0 0 []) [Frame 16; MemoryTick None 5000; Frame 1016]
              eq_refl) as (Hq & Hi & _).
  split; [exact Hq | exact Hi].
Defined.

(** *** The report *)

Lemma fold_min_spec (r : list Z) :
  forall x : Z,
    (fold_left Z.min r x <= x)%Z /\
    Forall (fun y => fold_left Z.min r x <= y)%Z r /\
    In (fold_left Z.min r x) (x :: r).
Proof.
  induction r as [|y r IH]; intros x.
  - simpl. split; [lia|]. split; [constructor | left; reflexivity].
  - simpl fold_left. destruct (IH (Z.min x y)) as (H1 & H2 & H3).
    split; [lia|]. split.
    + constructor; [lia | exact H2].
    + destruct H3 as [H3|H3]; [|right; right; exact H3].
      destruct (Z.min_spec x y) as [[_ E]|[_ E]].
      * left. rewrite <- H3. symmetry. exact E.
      * right. left. rewrite <- H3. symmetry. exact E.
Qed.

Lemma fold_max_spec (r : list Z) :
  forall x : Z,
    (x <= fold_left Z.max r x)%Z /\
    Forall (fun y => y <= fold_left Z.max r x)%Z r /\
    In (fold_left Z.max r x) (x :: r).
Proof.
  induction r as [|y r IH]; intros x.
  - simpl. split; [lia|]. split; [constructor | left; reflexivity].
  - simpl fold_left. destruct (IH (Z.max x y)) as (H1 & H2 & H3).
    split; [lia|]. split.
    + constructor; [lia | exact H2].
    + destruct H3 as [H3|H3]; [|right; right; exact H3].
      destruct (Z.max_spec x y) as [[_ E]|[_ E]].
      * right. left. rewrite <- H3. symmetry. exact E.
      * left. rewrite <- H3. symmetry. exact E.
Qed.

Lemma sum_acc (l : list Z) :
  forall acc : Z, fold_left Z.add l acc = (acc + sum l)%Z.
Proof.
  unfold sum. induction l as [|x l IH]; intros acc; simpl; [lia|].
  rewrite (IH (acc + x)%Z), (IH x). lia.
Qed.

Lemma sum_bounds (a b : Z) (l : list Z) :
  Forall (fun y => a <= y <= b)%Z l ->
  (a * Z.of_nat (length l) <= sum l <= b * Z.of_nat (length l))%Z.
Proof.
  induction l as [|x l IH]; intros H.
  - unfold sum. simpl. lia.
  - inversion H as [|? ? Hx Hl]; subst. specialize (IH Hl).
    unfold sum. simpl fold_left. rewrite sum_acc.
    rewrite length_cons, Nat2Z.inj_succ. lia.
Qed.

Lemma mean_between (a b s n : Z) :
  (0 < n)%Z -> (a * n <= s <= b * n)%Z ->
  (a <= Math_round (inject_Z s / inject_Z n) <= b)%Z.
Proof.
  intros Hn (Ha & Hb).
  assert (Hq : (0 < inject_Z n)%Q).
  { change 0%Q with (inject_Z 0). rewrite <- Zlt_Qlt. exact Hn. }
  split.
  - apply Math_round_lower. apply Qle_shift_div_l; [exact Hq|].
    rewrite <- inject_Z_mult, <- Zle_Qle. exact Ha.
  - apply Math_round_upper. apply Qle_shift_div_r; [exact Hq|].
    rewrite <- inject_Z_mult, <- Zle_Qle. exact Hb.
Qed.

(** X8. For a sampler that holds at least one FPS sample, the report's
    minimum and maximum are samples of the series, the current FPS is its
    last sample, and the rounded mean lies between the minimum and the
    maximum. *)
Theorem report_orders_min_mean_max :
  forall m : t,
    fps (metrics m) <> [] ->
    let r := getPerformanceReport m in
    (minFPS r <= averageFPS r <= maxFPS r)%Z /\
    In (minFPS r) (fps (metrics m)) /\
    In (maxFPS r) (fps (metrics m)) /\
    Forall (fun s => minFPS r <= s <= maxFPS r)%Z (fps (metrics m)) /\
    currentFPS r = last (fps (metrics m)) 0%Z /\
    fpsSamples r = length (fps (metrics m)).
Proof.
  intros m Hne r. subst r. unfold getPerformanceReport.
  cbn [minFPS maxFPS averageFPS currentFPS fpsSamples].
  destruct (fps (metrics m)) as [|x l] eqn:E; [congruence|].
  change (0 <? length (x :: l)) with true. cbv iota.
  unfold Math_min, Math_max.
  destruct (fold_min_spec l x) as (N1 & N2 & N3).
  destruct (fold_max_spec l x) as (X1 & X2 & X3).
  assert (Hall : Forall (fun s => fold_left Z.min l x <= s
                                  <= fold_left Z.max l x)%Z (x :: l)).
  { constructor; [lia|]. rewrite Forall_forall in *. intros y Hy.
    specialize (N2 y Hy). specialize (X2 y Hy). lia. }
  split; [|repeat split; assumption].
  apply mean_between; [rewrite length_cons; lia|].
  apply sum_bounds. exact Hall.
Qed.

Lemma report_orders_min_mean_max_witness :
  let r := getPerformanceReport (Samples.monitor_with [58; 61; 12]%Z) in
  minFPS r = 12%Z /\ averageFPS r = 44%Z /\ maxFPS r = 61%Z /\
  (minFPS r <= averageFPS r <= maxFPS r)%Z.
Proof.
  intros r.
  assert (Hne : fps (metrics (Samples.monitor_with [58; 61; 12]%Z)) <> [])
    by (simpl; discriminate).
  destruct (report_orders_min_mean_max _ Hne) as (Hb & _).
  repeat split; apply Hb.
Defined.

(** *** Memory *)

Lemma usage_high_iff (used limit : Z) :
  (0 < limit)%Z ->
  usage_high used limit = true <-> (4 * limit < 5 * used)%Z.
Proof.
  intros Hl. unfold usage_high.
  destruct (Z.eqb_spec limit 0) as [E|_]; [lia|].
  rewrite negb_true_iff.
  destruct limit as [|p|p]; try lia.
  destruct (Qle_bool (inject_Z used / inject_Z (Z.pos p)) (8 # 10)) eqn:E.
  - apply Qle_bool_iff in E. unfold Qle, Qdiv, Qmult, Qinv, inject_Z in E.
    simpl in E. split; [discriminate|]. lia.
  - split; [intros _ | reflexivity].
    destruct (Z.lt_ge_cases (4 * Z.pos p) (5 * used)) as [H|H]; [exact H|].
    assert (Hq : (inject_Z used / inject_Z (Z.pos p) <= 8 # 10)%Q).
    { unfold Qle, Qdiv, Qmult, Qinv, inject_Z. simpl. lia. }
    apply Qle_bool_iff in Hq. congruence.
Qed.

(** X9. When the heap limit is positive, a memory tick that can read
    [performance.memory] stores the snapshot as the newest entry, which
    the report then shows as [lastMemory], leaves the FPS series alone, and
    writes one console warning exactly when more than 80% of the limit is
    in use; a tick whose read fails changes nothing. *)
Theorem memory_tick_records_and_warns :
  forall (mem : MemoryInfo) (now : Z) (m : t) (e : Env),
    (0 < jsHeapSizeLimit mem)%Z ->
    let st := memoryTick (Some mem) now m e in
    lastMemory (getPerformanceReport (fst st))
    = Some (mkMemorySample (usedJSHeapSize mem) (totalJSHeapSize mem)
              (jsHeapSizeLimit mem) now) /\
    fps (metrics (fst st)) = fps (metrics m) /\
    ((4 * jsHeapSizeLimit mem < 5 * usedJSHeapSize mem)%Z ->
     length (console (snd st)) = S (length (console e))) /\
    ((5 * usedJSHeapSize mem <= 4 * jsHeapSizeLimit mem)%Z -> snd st = e) /\
    memoryTick None now m e = (m, e).
Proof.
  intros mem now m e Hl st.
  pose proof (usage_high_iff (usedJSHeapSize mem) (jsHeapSizeLimit mem) Hl)
    as Hu.
  split; [|split; [reflexivity | split; [|split; [|reflexivity]]]].
  - unfold getPerformanceReport, lastMemory. subst st.
    rewrite memoryTick_memory.
    set (snap := mkMemorySample _ _ _ _).
    pose proof (push_capped_nonempty 60 (memory (metrics m)) snap) as Hne.
    destruct (Nat.ltb_spec 0 (length (push_capped 60 (memory (metrics m)) snap)))
      as [_|Hz]; [|lia].
    f_equal. apply push_capped_last. lia.
  - intros H. apply Hu in H. subst st. unfold memoryTick. rewrite H.
    simpl. rewrite length_app. simpl. lia.
  - intros H. subst st. unfold memoryTick.
    destruct (usage_high (usedJSHeapSize mem) (jsHeapSizeLimit mem));
      [|reflexivity].
    destruct Hu as [Hu _]. specialize (Hu eq_refl). lia.
Qed.

Lemma memory_tick_records_and_warns_witness :
  let st := memoryTick (Some Samples.heavy_heap) 5000
              (new None 0) Samples.running_env in
  option_map sample_used (lastMemory (getPerformanceReport (fst st)))
  = Some 943718400%Z /\
  length (console (snd st)) = 1.
Proof.
  intros st.
  assert (Hl : (0 < jsHeapSizeLimit Samples.heavy_heap)%Z) by (simpl; lia).
  destruct (memory_tick_records_and_warns Samples.heavy_heap 5000 (new None 0)
              Samples.running_env Hl) as (Hlast & _ & Hw & _).
  fold st in Hlast, Hw. split.
  - rewrite Hlast. reflexivity.
  - rewrite Hw; [reflexivity | simpl; lia].
Defined.

Lemma memory_message_only_from_memory (r : Report) (a b : bool) :
  In suggestion_high_memory
    ((if a then [suggestion_low_fps] else [])
     ++ (if b then [suggestion_very_low_fps] else [])
     ++ match lastMemory r with
        | Some mem =>
            if (500 * 1024 * 1024 <? sample_used mem)%Z
            then [suggestion_high_memory] else []
        | None => []
        end)
  <-> exists mem, lastMemory r = Some mem /\
                  (524288000 < sample_used mem)%Z.
Proof.
  split.
  - intros H. apply in_app_or in H. destruct H as [H|H].
    { destruct a; [destruct H as [E|[]]|destruct H].
      exfalso. exact (low_neq_memory E). }
    apply in_app_or in H. destruct H as [H|H].
    { destruct b; [destruct H as [E|[]]|destruct H].
      exfalso. exact (very_low_neq_memory E). }
    destruct (lastMemory r) as [mem|]; [|destruct H].
    destruct (Z.ltb_spec (500 * 1024 * 1024) (sample_used mem)) as [L|L];
      [|destruct H].
    exists mem. split; [reflexivity | lia].
  - intros (mem & E & L). rewrite E.
    apply in_or_app. right. apply in_or_app. right.
    destruct (Z.ltb_spec (500 * 1024 * 1024) (sample_used mem)) as [L'|L'];
      [left; reflexivity | lia].
Qed.

(** X10. The restart suggestion is returned exactly when the newest memory
    snapshot uses more than 500 MiB (524288000 bytes) of heap; it is absent
    when no snapshot was ever taken.  The suggestions never repeat a
    message and come in the order low FPS, very low FPS, memory. *)
Theorem memory_suggestion_follows_last_snapshot :
  forall m : t,
    let s := getPerformanceSuggestions m in
    (In suggestion_high_memory s
     <-> exists mem, lastMemory (getPerformanceReport m) = Some mem /\
                     (524288000 < sample_used mem)%Z) /\
    (memory (metrics m) = [] -> ~ In suggestion_high_memory s) /\
    NoDup s /\
    (exists a b c : bool,
       s = (if a then [suggestion_low_fps] else [])
           ++ (if b then [suggestion_very_low_fps] else [])
           ++ (if c then [suggestion_high_memory] else [])).
Proof.
  intros m s. subst s. rewrite suggestions_shape.
  split; [apply memory_message_only_from_memory|].
  split.
  { intros Hm H. apply memory_message_only_from_memory in H.
    destruct H as (mem & E & _). unfold getPerformanceReport, lastMemory in E.
    rewrite Hm in E. discriminate E. }
  assert (Hshape : exists a b c : bool,
             (if (averageFPS (getPerformanceReport m) <? 30)%Z
              then [suggestion_low_fps] else [])
             ++ (if (averageFPS (getPerformanceReport m) <? 20)%Z
                 then [suggestion_very_low_fps] else [])
             ++ match lastMemory (getPerformanceReport m) with
                | Some mem =>
                    if (500 * 1024 * 1024 <? sample_used mem)%Z
                    then [suggestion_high_memory] else []
                | None => []
                end
             = (if a then [suggestion_low_fps] else [])
               ++ (if b then [suggestion_very_low_fps] else [])
               ++ (if c then [suggestion_high_memory] else [])).
  { exists (averageFPS (getPerformanceReport m) <? 30)%Z,
           (averageFPS (getPerformanceReport m) <? 20)%Z,
           match lastMemory (getPerformanceReport m) with
           | Some mem => (500 * 1024 * 1024 <? sample_used mem)%Z
           | None => false
           end.
    destruct (lastMemory (getPerformanceReport m)) as [mem|]; [|reflexivity].
    destruct (500 * 1024 * 1024 <? sample_used mem)%Z; reflexivity. }
  split; [|exact Hshape].
  destruct Hshape as (a & b & c & ->).
  pose proof low_neq_very_low. pose proof low_neq_memory.
  pose proof very_low_neq_memory.
  destruct a, b, c; simpl; repeat constructor; simpl; intuition congruence.
Qed.

End PerformanceMonitorExtra.

(** ** Accessibility annotator: images, containers, the whole sweep *)

Module AccessibilityExtra.
Import JSArray Accessibility AccessibilityFacts.

Lemma lookup_store (name name' value : string)
    (attrs : list (string * string)) :
  lookup name (store name' value attrs)
  = if String.eqb name' name then Some value else lookup name attrs.
Proof.
  induction attrs as [|[k v] rest IH]; simpl.
  - rewrite String.eqb_sym. destruct (String.eqb name' name); reflexivity.
  - destruct (String.eqb k name') eqn:E; simpl.
    + apply String.eqb_eq in E. subst k.
      destruct (String.eqb name' name); reflexivity.
    + destruct (String.eqb k name) eqn:E'; [|exact IH].
      destruct (String.eqb name' name) eqn:E''; [|reflexivity].
      apply String.eqb_eq in E', E''. subst.
      rewrite String.eqb_refl in E. discriminate E.
Qed.

Lemma getAttribute_setAttribute (name name' value : string) (e : Element) :
  getAttribute name (setAttribute name' value e)
  = if String.eqb name' name then Some value else getAttribute name e.
Proof. unfold getAttribute. simpl. apply lookup_store. Qed.

Lemma annotate_image_fst (img : Element) (u : unit) :
  fst (annotate_image img u) = with_alt img.
Proof. destruct u. reflexivity. Qed.

Lemma annotate_container_fst (c : Element) (u : unit) :
  fst (annotate_container c u) = as_container c.
Proof. destruct u. reflexivity. Qed.

Lemma addImageAccessibility_body (d : Document) :
  body (addImageAccessibility d)
  = map (fun e => if is_tag "img" e then with_alt e else e) (body d).
Proof.
  unfold addImageAccessibility. simpl.
  apply forEach_fst_map. apply annotate_image_fst.
Qed.

Lemma addKeyboardNavigation_body (d : Document) :
  body (addKeyboardNavigation d)
  = map (fun e => if is_game_container e then as_container e else e) (body d)
    ++ [helpElement].
Proof.
  unfold addKeyboardNavigation, addKeyboardShortcutsHelp. simpl.
  rewrite (forEach_fst_map is_game_container annotate_container as_container
             annotate_container_fst). reflexivity.
Qed.

Lemma with_alt_alt (img : Element) :
  getAttribute "alt" (with_alt img)
  = Some (match getAttribute "alt" img with
          | Some v => v
          | None =>
              first_nonempty
                [attribute_or_empty (getAttribute "aria-label" img);
                 attribute_or_empty (getAttribute "title" img);
                 id img]
                "遊戲圖片"
          end).
Proof.
  unfold with_alt, annotate_image, hasAttribute. cbn [fst].
  destruct (getAttribute "alt" img) as [v|] eqn:E; simpl negb; cbv iota.
  - exact E.
  - rewrite getAttribute_setAttribute, String.eqb_refl. f_equal.
    apply or_attribute_first_nonempty, or_attribute_first_nonempty,
          or_string_first_nonempty.
    reflexivity.
Qed.



(** Reads attributes back through [setAttribute], deciding the comparisons
    of attribute names that are literals. *)
Ltac attributes :=
  rewrite ?getAttribute_setAttribute;
  repeat match goal with
         | |- context [String.eqb ?a ?b] =>
             let r := eval vm_compute in (String.eqb a b) in
             match r with
             | true => change (String.eqb a b) with true
             | false => change (String.eqb a b) with false
             end
         end;
  cbv iota.

Lemma hasAttribute_getAttribute (name : string) (e : Element) :
  hasAttribute name e
  = match getAttribute name e with Some _ => true | None => false end.
Proof. reflexivity. Qed.

(** The attributes a game container leaves the sweep with. *)
Lemma as_container_attributes (c : Element) :
  getAttribute "tabindex" (as_container c)
  = Some (match getAttribute "tabindex" c with Some v => v | None => "0" end)
  /\ getAttribute "role" (as_container c)
     = match getAttribute "tabindex" c with
       | Some _ => getAttribute "role" c
       | None => Some "application"
       end
  /\ getAttribute "aria-label" (as_container c)
     = Some (match getAttribute "aria-label" c with
             | Some v => v
             | None => first_nonempty [id c] "遊戲區域"
             end).
Proof.
  unfold as_container, annotate_container, id. cbn [fst].
  rewrite !hasAttribute_getAttribute.
  destruct (getAttribute "tabindex" c) as [t|] eqn:Et; simpl negb; cbv iota;
    attributes; rewrite ?Et;
    destruct (getAttribute "aria-label" c) as [l|] eqn:El; simpl negb;
    cbv iota; attributes; rewrite ?Et, ?El; repeat split.
Qed.

(** X12. A canvas or game container of the page leaves
    [addKeyboardNavigation] focusable and labelled: without a [tabindex] it
    gets [tabindex] 0 and the role [application] (replacing a role it had),
    with a [tabindex] it keeps both its [tabindex] and its role (or lack of
    one); without an [aria-label] it gets its identifier, or the generic
    string when the identifier is empty, as label. *)
Theorem container_becomes_focusable_and_labelled :
  forall (d : Document) (i : nat) (c : Element),
    nth_error (body d) i = Some c ->
    is_game_container c = true ->
    exists c' : Element,
      nth_error (body (addKeyboardNavigation d)) i = Some c' /\
      getAttribute "tabindex" c'
      = Some (match getAttribute "tabindex" c with
              | Some v => v
              | None => "0"
              end) /\
      getAttribute "role" c'
      = match getAttribute "tabindex" c with
        | Some _ => getAttribute "role" c
        | None => Some "application"
        end /\
      getAttribute "aria-label" c'
      = Some (match getAttribute "aria-label" c with
              | Some v => v
              | None => first_nonempty [id c] "遊戲區域"
              end).
Proof.
  intros d i c Hnth Hsel. exists (as_container c).
  split; [|apply as_container_attributes].
  rewrite addKeyboardNavigation_body.
  rewrite nth_error_app1 by
    (rewrite length_map; apply nth_error_Some; rewrite Hnth; discriminate).
  rewrite nth_error_map, Hnth. simpl. rewrite Hsel. reflexivity.
Qed.

Lemma container_becomes_focusable_and_labelled_witness :
  exists c' : Element,
    nth_error (body (addKeyboardNavigation
                       (Samples.page [Samples.canvas_with_role]))) 0
    = Some c' /\
    getAttribute "tabindex" c' = Some "0" /\
    getAttribute "role" c' = Some "application" /\
    getAttribute "aria-label" c' = Some "board".
Proof.
  destruct (container_becomes_focusable_and_labelled
              (Samples.page [Samples.canvas_with_role]) 0
              Samples.canvas_with_role eq_refl eq_refl)
    as (c' & Hn & Ht & Hr & Hl).
  exists c'. auto.
Defined.

(** *** What the sweep keeps *)

Lemma extends_refl (e : Element) : extends_element e e.
Proof. repeat split; auto. Qed.

Lemma extends_trans (e1 e2 e3 : Element) :
  extends_element e1 e2 -> extends_element e2 e3 ->
  extends_element e1 e3.
Proof.
  intros (A1 & A2 & A3 & A4 & A5) (B1 & B2 & B3 & B4 & B5).
  repeat split; try congruence; auto.
Qed.

(** Setting an attribute the element does not have keeps every attribute
    it has. *)
Lemma guarded_set_extends (name value : string) (e : Element) :
  getAttribute name e = None ->
  extends_element e (setAttribute name value e).
Proof.
  intros Hnone. repeat split; auto.
  intros n v _ _ Hn. rewrite getAttribute_setAttribute.
  destruct (String.eqb name n) eqn:E; [|exact Hn].
  apply String.eqb_eq in E. subst n. congruence.
Qed.

Lemma role_set_extends (value : string) (e : Element) :
  extends_element e (setAttribute "role" value e).
Proof.
  repeat split; auto.
  intros n v Hn _ Hv. rewrite getAttribute_setAttribute.
  destruct (String.eqb "role" n) eqn:E; [|exact Hv].
  apply String.eqb_eq in E. congruence.
Qed.

Lemma In_add (c c' : string) (cl : list string) : In c cl -> In c (add c' cl).
Proof.
  intros H. unfold add. destruct (contains c' cl); [exact H|].
  apply in_or_app. left. exact H.
Qed.

Lemma annotated_extends (b : Element) : extends_element b (annotated b).
Proof.
  unfold annotated, annotate_button. rewrite hasAttribute_getAttribute.
  destruct (getAttribute "aria-label" b) eqn:E; simpl negb; cbv iota.
  - destruct (negb (contains "has-focus-style" (classList b))); cbn [fst];
      [|apply extends_refl].
    repeat split; auto. intros c Hc. apply In_add. exact Hc.
  - apply (extends_trans _ (setAttribute "aria-label" (getButtonLabel b) b));
      [apply guarded_set_extends; exact E|].
    match goal with
    | |- context [if ?g then _ else _] => destruct g
    end; cbn [fst]; [|apply extends_refl].
    repeat split; auto. intros c Hc. apply In_add. exact Hc.
Qed.

Lemma with_alt_extends (img : Element) : extends_element img (with_alt img).
Proof.
  unfold with_alt, annotate_image. cbn [fst].
  rewrite hasAttribute_getAttribute.
  destruct (getAttribute "alt" img) eqn:E; simpl negb; cbv iota;
    [apply extends_refl | apply guarded_set_extends; exact E].
Qed.

Lemma as_container_extends (c : Element) :
  extends_element c (as_container c).
Proof.
  unfold as_container, annotate_container. cbn [fst].
  set (c1 := if negb (hasAttribute "tabindex" c)
             then setAttribute "role" "application"
                    (setAttribute "tabindex" "0" c)
             else c).
  assert (H1 : extends_element c c1).
  { unfold c1. rewrite hasAttribute_getAttribute.
    destruct (getAttribute "tabindex" c) eqn:E; simpl negb; cbv iota;
      [apply extends_refl|].
    apply (extends_trans _ (setAttribute "tabindex" "0" c));
      [apply guarded_set_extends; exact E | apply role_set_extends]. }
  apply (extends_trans _ c1); [exact H1|].
  rewrite hasAttribute_getAttribute.
  destruct (getAttribute "aria-label" c1) eqn:E; simpl negb; cbv iota;
    [apply extends_refl | apply guarded_set_extends; exact E].
Qed.

Lemma swept_extends (e : Element) : extends_element e (swept e).
Proof.
  unfold swept.
  set (e1 := if is_tag "button" e then annotated e else e).
  set (e2 := if is_tag "img" e1 then with_alt e1 else e1).
  assert (H1 : extends_element e e1)
    by (unfold e1; destruct (is_tag "button" e);
        [apply annotated_extends | apply extends_refl]).
  assert (H2 : extends_element e1 e2)
    by (unfold e2; destruct (is_tag "img" e1);
        [apply with_alt_extends | apply extends_refl]).
  apply (extends_trans _ e1); [exact H1|].
  apply (extends_trans _ e2); [exact H2|].
  destruct (is_game_container e2);
    [apply as_container_extends | apply extends_refl].
Qed.

Lemma detectHighContrastMode_body (d : Document) :
  body (detectHighContrastMode d) = body d.
Proof. unfold detectHighContrastMode. destruct (forcedColors d); reflexivity. Qed.

Lemma init_body (a : t) (d : Document) :
  initialized a = false ->
  body (snd (init a d)) = map swept (body d) ++ [helpElement].
Proof.
  intros Ha. unfold init. rewrite Ha. cbn [snd body].
  rewrite detectHighContrastMode_body, addKeyboardNavigation_body,
    addImageAccessibility_body, addButtonAccessibility_body, !map_map.
  reflexivity.
Qed.



(** *** Running a sweep again *)

Lemma annotated_fixed (b : Element) : annotated (annotated b) = annotated b.
Proof.
  unfold annotated at 1. unfold annotate_button.
  rewrite hasAttribute_getAttribute, annotated_label.
  simpl negb. cbv beta iota zeta. rewrite annotated_marked.
  reflexivity.
Qed.

Lemma with_alt_fixed (img : Element) : with_alt (with_alt img) = with_alt img.
Proof.
  unfold with_alt at 1. unfold annotate_image. cbn [fst].
  rewrite hasAttribute_getAttribute, with_alt_alt. reflexivity.
Qed.

Lemma annotated_tag (b : Element) : tagName (annotated b) = tagName b.
Proof. apply annotated_extends. Qed.

Lemma with_alt_tag (img : Element) : tagName (with_alt img) = tagName img.
Proof. apply with_alt_extends. Qed.

Lemma addButtonAccessibility_eq (d : Document) :
  addButtonAccessibility d
  = set_head (head d ++ repeat focus_style
                          (length (filter lacks_marker (body d))))
      (set_body (map (fun e => if is_tag "button" e then annotated e else e)
                   (body d)) d).
Proof.
  rewrite <- addButtonAccessibility_head, <- addButtonAccessibility_body.
  unfold addButtonAccessibility.
  destruct (forEach (is_tag "button") annotate_button (body d) (head d)).
  reflexivity.
Qed.

Lemma no_button_lacks_marker (l : list Element) :
  filter lacks_marker
    (map (fun e => if is_tag "button" e then annotated e else e) l) = [].
Proof.
  induction l as [|e l IH]; [reflexivity|].
  simpl. rewrite IH. unfold lacks_marker.
  destruct (is_tag "button" e) eqn:E.
  - rewrite annotated_marked, andb_false_r. reflexivity.
  - rewrite E. reflexivity.
Qed.

(** X14. The button sweep and the image sweep change nothing when they run
    again on a page they have already swept, but every run of
    [addKeyboardNavigation] appends one more help overlay and registers one
    more keydown listener. *)
Theorem repeated_sweeps :
  forall d : Document,
    addButtonAccessibility (addButtonAccessibility d)
    = addButtonAccessibility d /\
    addImageAccessibility (addImageAccessibility d)
    = addImageAccessibility d /\
    length (body (addKeyboardNavigation (addKeyboardNavigation d)))
    = 2 + length (body d) /\
    keydownListeners (addKeyboardNavigation (addKeyboardNavigation d))
    = 2 + keydownListeners d.
Proof.
  intros d. split; [|split; [|split]].
  - rewrite (addButtonAccessibility_eq (addButtonAccessibility d)).
    rewrite addButtonAccessibility_body, no_button_lacks_marker, map_map.
    simpl repeat. rewrite app_nil_r, addButtonAccessibility_head.
    assert (Hm : map (fun e => if is_tag "button"
                                    (if is_tag "button" e then annotated e else e)
                               then annotated
                                      (if is_tag "button" e then annotated e
                                       else e)
                               else if is_tag "button" e then annotated e else e)
                   (body d)
                 = map (fun e => if is_tag "button" e then annotated e else e)
                     (body d)).
    { apply map_ext. intros e. destruct (is_tag "button" e) eqn:E.
      - unfold is_tag. rewrite annotated_tag. fold (is_tag "button" e).
        rewrite E. apply annotated_fixed.
      - rewrite E. reflexivity. }
    rewrite Hm, (addButtonAccessibility_eq d). reflexivity.
  - unfold addImageAccessibility at 1.
    rewrite (forEach_fst_map (is_tag "img") annotate_image with_alt
               annotate_image_fst).
    rewrite addImageAccessibility_body, map_map.
    assert (Hm : map (fun e => if is_tag "img"
                                    (if is_tag "img" e then with_alt e else e)
                               then with_alt
                                      (if is_tag "img" e then with_alt e else e)
                               else if is_tag "img" e then with_alt e else e)
                   (body d)
                 = map (fun e => if is_tag "img" e then with_alt e else e)
                     (body d)).
    { apply map_ext. intros e. destruct (is_tag "img" e) eqn:E.
      - unfold is_tag. rewrite with_alt_tag. fold (is_tag "img" e).
        rewrite E. apply with_alt_fixed.
      - rewrite E. reflexivity. }
    rewrite Hm. rewrite <- addImageAccessibility_body.
    unfold addImageAccessibility. reflexivity.
  - rewrite !addKeyboardNavigation_body.
    repeat (rewrite length_app || rewrite length_map). simpl. lia.
  - reflexivity.
Qed.

(** *** The live region and its timers *)

Lemma update_nth_length (f : Element -> Element) (l : list Element) :
  forall i, length (update_nth i f l) = length l.
Proof.
  induction l as [|x l IH]; intros i; [reflexivity|].
  destruct i; simpl; [reflexivity | rewrite IH; reflexivity].
Qed.

Lemma write_text_size (r : NodeRef) (txt : string) (d : Document) :
  length (head (write_text r txt d)) = length (head d) /\
  length (body (write_text r txt d)) = length (body d).
Proof.
  destruct r; simpl; rewrite ?update_nth_length; auto.
Qed.

Lemma clear_all_size (ts : list Timer) :
  forall d : Document,
    length (head (fold_left (fun d tm => clear tm d) ts d)) = length (head d) /\
    length (body (fold_left (fun d tm => clear tm d) ts d)) = length (body d).
Proof.
  induction ts as [|tm ts IH]; intros d; [auto|].
  simpl. destruct (IH (clear tm d)) as (Hh & Hb). rewrite Hh, Hb.
  apply write_text_size.
Qed.

Lemma advance_size (now : Z) (d : Document) :
  length (head (advance now d)) = length (head d) /\
  length (body (advance now d)) = length (body d).
Proof.
  unfold advance.
  exact (clear_all_size (filter (is_due now) (timers d))
           (set_timers (filter (fun tm => negb (is_due now tm)) (timers d)) d)).
Qed.

Lemma announce_size (m : string) (p : option string) (now : Z)
    (d : Document) :
  length (head (announceToScreenReader m p now d)) = length (head d) /\
  length (body (announceToScreenReader m p now d))
  = match getElementById live_region_id d with
    | Some _ => length (body d)
    | None => S (length (body d))
    end.
Proof.
  unfold announceToScreenReader.
  destruct (getElementById live_region_id d) as [r|]; cbn [head body set_timers].
  - apply write_text_size.
  - simpl. rewrite update_nth_length, length_app. simpl. split; [reflexivity | lia].
Qed.

(** X15. The live region is created at most once: a call of
    [announceToScreenReader] appends one element to the body when the
    document has no element with the region's id and none when it has one,
    and after a first call no sequence of later calls and elapsing timers
    adds or removes an element.  When the region exists the priority
    argument has no effect at all. *)
Theorem live_region_created_once :
  forall (d : Document) (m : string) (p : option string) (now : Z)
         (cs : list Call),
    let d1 := announceToScreenReader m p now d in
    let d2 := later_calls cs d1 in
    length (body d1)
    = match getElementById live_region_id d with
      | Some _ => length (body d)
      | None => S (length (body d))
      end /\
    length (body d2) = length (body d1) /\
    length (head d2) = length (head d) /\
    (forall m' p1 p2 now',
       announceToScreenReader m' p1 now' d1
       = announceToScreenReader m' p2 now' d1).
Proof.
  intros d m p now cs d1 d2.
  destruct (announce_region m p now d) as (r & e & Hr & _).
  fold d1 in Hr.
  destruct (announce_size m p now d) as (Hh1 & Hb1). fold d1 in Hh1, Hb1.
  split; [exact Hb1|].
  assert (Hsize : forall cs d0 r0 e0,
             region_at r0 e0 d0 ->
             length (body (later_calls cs d0)) = length (body d0) /\
             length (head (later_calls cs d0)) = length (head d0)).
  { clear. induction cs as [|c cs IH]; intros d0 r0 e0 Hr0; [simpl; auto|].
    unfold later_calls. simpl fold_left.
    destruct (advance_region (call_time c) d0 r0 e0 Hr0) as (e1 & Hr1 & _).
    destruct (announce_region (call_message c) (call_priority c) (call_time c)
                (advance (call_time c) d0))
      as (r2 & e2 & Hr2 & _).
    destruct (IH _ r2 e2 Hr2) as (Hb & Hh). unfold later_calls in Hb, Hh.
    unfold later_call at 2 4. rewrite Hb, Hh.
    destruct (announce_size (call_message c) (call_priority c) (call_time c)
                (advance (call_time c) d0)) as (Hh' & Hb').
    destruct Hr1 as (Hg1 & _). rewrite Hg1 in Hb'.
    destruct (advance_size (call_time c) d0) as (Hh'' & Hb'').
    rewrite Hb', Hh', Hb'', Hh''. auto. }
  destruct (Hsize cs d1 r e Hr) as (Hb2 & Hh2). fold d2 in Hb2, Hh2.
  split; [exact Hb2|]. split; [congruence|].
  intros m' p1 p2 now'. unfold announceToScreenReader.
  destruct Hr as (Hg & _). rewrite Hg. reflexivity.
Qed.

Lemma set_timers_same (d : Document) : set_timers (timers d) d = d.
Proof. destruct d; reflexivity. Qed.

Lemma filter_all {A : Type} (f : A -> bool) (l : list A) :
  Forall (fun x => f x = true) l -> filter f l = l.
Proof.
  induction 1 as [|x l Hx _ IH]; [reflexivity|].
  simpl. rewrite Hx, IH. reflexivity.
Qed.

Lemma filter_none {A : Type} (f : A -> bool) (l : list A) :
  Forall (fun x => f x = false) l -> filter f l = [].
Proof.
  induction 1 as [|x l Hx _ IH]; [reflexivity|].
  simpl. rewrite Hx. exact IH.
Qed.

(** X16. An announced message stays for the whole delay when no earlier
    clear is pending: if every callback pending at the call is due after
    [t'], and [t'] is less than 1000 ms after the call, then letting the
    clock reach [t'] changes nothing, so the live region still shows the
    message.  When nothing was pending at all, the clock reaching 1000 ms
    after the call empties the text and leaves no callback pending. *)
Theorem message_stays_for_the_whole_delay :
  forall (d : Document) (m : string) (p : option string) (now t' : Z),
    Forall (fun tm => (t' < due tm)%Z) (timers d) ->
    (t' < now + 1000)%Z ->
    let d1 := announceToScreenReader m p now d in
    advance t' d1 = d1 /\
    live_text (advance t' d1) = Some m /\
    (timers d = [] ->
     live_text (advance (now + 1000) d1) = Some "" /\
     timers (advance (now + 1000) d1) = []).
Proof.
  intros d m p now t' Hpending Ht d1.
  destruct (announce_region m p now d) as (r & e & Hr & Htxt & Htm & _).
  fold d1 in Hr, Htm.
  assert (Hnot : Forall (fun tm => is_due t' tm = false) (timers d1)).
  { rewrite Htm. apply Forall_app. split.
    - apply Forall_forall. intros tm Hin.
      rewrite Forall_forall in Hpending. specialize (Hpending tm Hin).
      unfold is_due. destruct (Z.leb_spec (due tm) t'); [lia | reflexivity].
    - constructor; [|constructor]. unfold is_due. simpl.
      destruct (Z.leb_spec (now + 1000) t'); [lia | reflexivity]. }
  assert (Hsame : advance t' d1 = d1).
  { unfold advance. rewrite (filter_none _ _ Hnot). simpl fold_left.
    rewrite filter_all; [apply set_timers_same|].
    apply Forall_forall. intros tm Hin. rewrite Forall_forall in Hnot.
    rewrite (Hnot tm Hin). reflexivity. }
  split; [exact Hsame|]. split.
  { rewrite Hsame, (live_text_region r e d1 Hr), Htxt. reflexivity. }
  intros Hempty. rewrite Hempty in Htm. simpl in Htm.
  destruct (advance_region (now + 1000) d1 r e Hr) as (e' & Hr' & _ & Ht' & Hc).
  split.
  - rewrite (live_text_region r e' _ Hr'), Hc; [reflexivity|].
    exists (mkTimer (now + 1000) r). rewrite Htm.
    split; [left; reflexivity|]. split; [|reflexivity].
    unfold is_due. simpl. apply Z.leb_refl.
  - rewrite Ht', Htm. simpl. unfold is_due. simpl.
    rewrite Z.leb_refl. reflexivity.
Qed.

Lemma message_stays_for_the_whole_delay_witness :
  let d1 := announceToScreenReader "saved" None 200 (Samples.page []) in
  live_text (advance 1199 d1) = Some "saved" /\
  live_text (advance 1200 d1) = Some "".
Proof.
  intros d1.
  assert (H1 : Forall (fun tm => (1199 < due tm)%Z) (timers (Samples.page [])))
    by constructor.
  assert (H2 : (1199 < 200 + 1000)%Z) by lia.
  destruct (message_stays_for_the_whole_delay (Samples.page []) "saved" None
              200 1199 H1 H2) as (_ & Hshown & Hcleared).
  split; [exact Hshown|].
  destruct (Hcleared eq_refl) as (Hc & _). exact Hc.
Defined.

(** *** Forced colors *)

Lemma find_index_middle (p : Element -> bool) (x : Element)
    (l rest : list Element) :
  find_index p l = None -> p x = true ->
  find_index p (l ++ x :: rest) = Some (length l).
Proof.
  intros Hn Hx. induction l as [|y l IH]; simpl in *.
  - rewrite Hx. reflexivity.
  - destruct (p y); [discriminate|].
    destruct (find_index p l); [discriminate|].
    rewrite IH; reflexivity.
Qed.

Lemma remove_nth_middle (x : Element) (l rest : list Element) :
  remove_nth (length l) (l ++ x :: rest) = l ++ rest.
Proof. induction l as [|y l IH]; simpl; [reflexivity | rewrite IH; reflexivity]. Qed.

Lemma remove_add (c : string) (cl : list string) :
  contains c cl = false -> remove c (add c cl) = cl.
Proof.
  intros H. unfold add. rewrite H. unfold remove. rewrite filter_app. simpl.
  rewrite String.eqb_refl. simpl. rewrite app_nil_r.
  unfold contains in H. induction cl as [|x cl IH]; [reflexivity|].
  simpl in *. apply orb_false_iff in H. destruct H as (Hx & Hcl).
  rewrite String.eqb_sym, Hx. simpl. rewrite IH by exact Hcl. reflexivity.
Qed.

Lemma remove_absent (c : string) (cl : list string) :
  contains c cl = false -> remove c cl = cl.
Proof.
  unfold contains, remove. induction cl as [|x cl IH]; intros H; [reflexivity|].
  simpl in *. apply orb_false_iff in H. destruct H as (Hx & Hcl).
  rewrite String.eqb_sym, Hx. simpl. rewrite IH by exact Hcl. reflexivity.
Qed.

Lemma contains_remove (c : string) (cl : list string) :
  contains c (remove c cl) = false.
Proof.
  unfold contains, remove. induction cl as [|x cl IH]; [reflexivity|].
  simpl. destruct (String.eqb x c) eqn:E; simpl; [exact IH|].
  rewrite String.eqb_sym, E. exact IH.
Qed.

(** [k] listeners that run on activation leave [k] style elements. *)
Lemma activate_iter (k : nat) :
  forall d : Document,
    head (Nat.iter k (onForcedColorsChange true) d)
    = head d ++ repeat high_contrast_style k /\
    body (Nat.iter k (onForcedColorsChange true) d) = body d /\
    rootClassList (Nat.iter k (onForcedColorsChange true) d)
    = match k with
      | O => rootClassList d
      | S _ => add "high-contrast-mode" (rootClassList d)
      end /\
    mediaListeners (Nat.iter k (onForcedColorsChange true) d)
    = mediaListeners d.
Proof.
  induction k as [|k IH]; intros d.
  - simpl. rewrite app_nil_r. auto.
  - simpl Nat.iter. destruct (IH d) as (Hh & Hb & Hc & Hm).
    set (X := Nat.iter k (onForcedColorsChange true) d) in *.
    unfold onForcedColorsChange, applyHighContrastStyles.
    cbn [head body rootClassList mediaListeners set_head set_rootClassList].
    rewrite Hh, Hb, Hc, Hm.
    split; [|split; [reflexivity | split; [|reflexivity]]].
    + rewrite <- app_assoc. f_equal.
      change (high_contrast_style :: repeat high_contrast_style k)
        with (repeat high_contrast_style (S k)).
      rewrite <- repeat_cons. reflexivity.
    + destruct k; [reflexivity|].
      unfold add at 1. rewrite contains_add. reflexivity.
Qed.

(** One listener that runs on deactivation takes the first style element
    away. *)
Lemma deactivate_once (d : Document) (h0 : list Element) (n : nat) :
  find_index (has_id "high-contrast-styles") h0 = None ->
  head d = h0 ++ repeat high_contrast_style (S n) ->
  head (onForcedColorsChange false d) = h0 ++ repeat high_contrast_style n /\
  body (onForcedColorsChange false d) = body d /\
  rootClassList (onForcedColorsChange false d)
  = remove "high-contrast-mode" (rootClassList d) /\
  mediaListeners (onForcedColorsChange false d) = mediaListeners d.
Proof.
  intros Hnone Hhead.
  unfold onForcedColorsChange, removeHighContrastStyles, getElementById.
  cbn [head body set_rootClassList]. rewrite Hhead. simpl repeat.
  rewrite (find_index_middle _ high_contrast_style h0 _ Hnone eq_refl).
  unfold remove_node. cbn [head body set_timers set_rootClassList set_head
                             rootClassList mediaListeners].
  rewrite Hhead. simpl repeat. rewrite remove_nth_middle. auto.
Qed.

Lemma deactivate_iter (k : nat) :
  forall (d : Document) (h0 : list Element),
    find_index (has_id "high-contrast-styles") h0 = None ->
    head d = h0 ++ repeat high_contrast_style k ->
    head (Nat.iter k (onForcedColorsChange false) d) = h0 /\
    body (Nat.iter k (onForcedColorsChange false) d) = body d /\
    rootClassList (Nat.iter k (onForcedColorsChange false) d)
    = match k with
      | O => rootClassList d
      | S _ => remove "high-contrast-mode" (rootClassList d)
      end.
Proof.
  induction k as [|k IH]; intros d h0 Hnone Hhead.
  - simpl in *. rewrite app_nil_r in Hhead. auto.
  - rewrite Nat.iter_succ_r.
    destruct (deactivate_once d h0 k Hnone Hhead) as (Hh & Hb & Hc & _).
    destruct (IH (onForcedColorsChange false d) h0 Hnone Hh) as (Hh' & Hb' & Hc').
    rewrite Hh', Hb', Hc', Hb, Hc. split; [reflexivity|]. split; [reflexivity|].
    destruct k; [reflexivity|].
    apply remove_absent, contains_remove.
Qed.

(** X17. Forced colors switched on and off again leave the page as it
    was: on a document that has no element with the id
    [high-contrast-styles] and no [high-contrast-mode] class on its root,
    activation adds the class and one override style element per
    registered listener, and the following deactivation removes exactly
    those, so that head, body and root classes are the ones of before. *)
Theorem forced_colors_round_trip :
  forall d : Document,
    getElementById "high-contrast-styles" d = None ->
    contains "high-contrast-mode" (rootClassList d) = false ->
    let on := forcedColorsChange true d in
    let off := forcedColorsChange false on in
    head on = head d ++ repeat high_contrast_style (mediaListeners d) /\
    (0 < mediaListeners d ->
     contains "high-contrast-mode" (rootClassList on) = true) /\
    head off = head d /\ body off = body d /\
    rootClassList off = rootClassList d /\
    forcedColors on = true /\ forcedColors off = false.
Proof.
  intros d Hnone Hclass on off.
  assert (Hh0 : find_index (has_id "high-contrast-styles") (head d) = None).
  { unfold getElementById in Hnone.
    destruct (find_index (has_id "high-contrast-styles") (head d));
      [discriminate | reflexivity]. }
  set (d0 := {| head := head d; body := body d;
                rootClassList := rootClassList d;
                keydownListeners := keydownListeners d; forcedColors := true;
                mediaListeners := mediaListeners d; timers := timers d;
                console := console d |}).
  destruct (activate_iter (mediaListeners d) d0) as (Hh & Hb & Hc & Hm).
  assert (Eon : Nat.iter (mediaListeners d) (onForcedColorsChange true) d0 = on)
    by reflexivity.
  rewrite Eon in Hh, Hb, Hc, Hm. cbn [head body rootClassList mediaListeners d0] in Hh, Hb, Hc, Hm.
  set (on0 := {| head := head on; body := body on;
                 rootClassList := rootClassList on;
                 keydownListeners := keydownListeners on;
                 forcedColors := false;
                 mediaListeners := mediaListeners on; timers := timers on;
                 console := console on |}).
  assert (Hon0 : head on0
                 = head d ++ repeat high_contrast_style (mediaListeners on))
    by (cbn [head on0]; rewrite Hm; exact Hh).
  destruct (deactivate_iter (mediaListeners on) on0 (head d) Hh0 Hon0)
    as (Hh' & Hb' & Hc').
  assert (Eoff : Nat.iter (mediaListeners on) (onForcedColorsChange false) on0
                 = off) by reflexivity.
  rewrite Eoff in Hh', Hb', Hc'. cbn [body rootClassList on0] in Hb', Hc'.
  assert (Hiter : forall (k : nat) (f : Document -> Document) (x : Document),
             (forall y, forcedColors (f y) = forcedColors y) ->
             forcedColors (Nat.iter k f x) = forcedColors x).
  { intros k f x Hf. induction k; simpl; [reflexivity|]. rewrite Hf. exact IHk. }
  split; [exact Hh|]. split.
  { intros Hpos. rewrite Hc. destruct (mediaListeners d); [lia|].
    apply contains_add. }
  split; [exact Hh'|]. split; [congruence|]. split.
  { rewrite Hc', Hm, Hc. destruct (mediaListeners d); [reflexivity|].
    apply remove_add. exact Hclass. }
  split.
  - unfold on, forcedColorsChange. rewrite Hiter; [reflexivity|].
    intros y. reflexivity.
  - unfold off, forcedColorsChange. rewrite Hiter; [reflexivity|].
    intros y. unfold onForcedColorsChange, removeHighContrastStyles.
    destruct (getElementById "high-contrast-styles"
                (set_rootClassList
                   (remove "high-contrast-mode" (rootClassList y)) y))
      as [[i|i]|]; reflexivity.
Qed.

Lemma forced_colors_round_trip_witness :
  let d := snd (init new Samples.two_buttons) in
  length (head (forcedColorsChange true d)) = S (length (head d)) /\
  head (forcedColorsChange false (forcedColorsChange true d)) = head d.
Proof.
  intros d.
  destruct (forced_colors_round_trip d eq_refl eq_refl)
    as (Hon & _ & Hoff & _).
  split; [rewrite Hon, length_app; simpl; lia | exact Hoff].
Defined.

End AccessibilityExtra.

(** ** The patched scheduler and canvas methods *)

Module PatchExtra.
Import ErrorHandler.

Lemma run_frame_callback_returns (hs : list t) (now : string) (w : Window) :
  run_frame_callback hs None now w = (hs, w, None).
Proof.
  induction hs as [|h hs IH]; [reflexivity|].
  simpl. rewrite IH. reflexivity.
Qed.

(** X18. When a frame callback scheduled through the patched
    [requestAnimationFrame] throws, the exception does not escape, and it
    is recorded once: by the handler whose [init] ran last, with the source
    tag [requestAnimationFrame]; the handlers initialised before it are
    left as they were.  A callback that returns changes nothing. *)
Theorem frame_error_recorded_by_last_handler :
  forall (hs : list t) (h : t) (error : JSValue) (now : string) (w : Window),
    let r := handleError now error (Some "requestAnimationFrame") h w in
    run_frame_callback (hs ++ [h]) (Some error) now w
    = (hs ++ [snd (fst r)], snd r, None) /\
    source (fst (fst r)) = "requestAnimationFrame" /\
    run_frame_callback (hs ++ [h]) None now w = (hs ++ [h], w, None) /\
    run_frame_callback [] (Some error) now w = ([], w, Some error).
Proof.
  intros hs h error now w r.
  split; [|split; [reflexivity | split;
                   [apply run_frame_callback_returns | reflexivity]]].
  induction hs as [|h0 hs IH].
  - cbn [app run_frame_callback]. subst r.
    destruct (handleError now error (Some "requestAnimationFrame") h w)
      as [[info h1] w1].
    reflexivity.
  - cbn [app]. cbn [run_frame_callback]. cbn [app] in IH. rewrite IH.
    reflexivity.
Qed.

Section CanvasFacts.

Variable Ctx : Type.
Variable canvas_size : Ctx -> option (Q * Q).
Variable originalFillRect originalDrawImage originalClearRect
  : Canvas.Method Ctx.

Abbreviation clearRect_after := (Canvas.clearRect_after Ctx originalClearRect).
Abbreviation drawImage_after := (Canvas.drawImage_after Ctx originalDrawImage).
Abbreviation fillRect_layers :=
  (Canvas.fillRect_layers Ctx canvas_size originalFillRect).
Abbreviation fillRect_after :=
  (Canvas.fillRect_after Ctx canvas_size originalFillRect originalClearRect).

Abbreviation outcome_of := (Canvas.outcome_of Ctx).

Lemma patchedClearRect_returns (f : Canvas.Method Ctx) args c log :
  outcome_of (Canvas.patchedClearRect Ctx f args c log) = Canvas.Returned.
Proof.
  unfold Canvas.patchedClearRect. destruct (f args c log) as [[[|e] c1] l1];
    reflexivity.
Qed.

Lemma patchedDrawImage_returns (f : Canvas.Method Ctx) args c log :
  outcome_of (Canvas.patchedDrawImage Ctx f args c log) = Canvas.Returned.
Proof.
  unfold Canvas.patchedDrawImage. destruct (f args c log) as [[[|e] c1] l1];
    reflexivity.
Qed.

Lemma patchedFillRect_returns (f g : Canvas.Method Ctx) args c log :
  outcome_of (Canvas.patchedFillRect Ctx canvas_size f g args c log)
  = Canvas.Returned.
Proof.
  unfold Canvas.patchedFillRect. destruct (f args c log) as [[[|e] c1] l1];
    [reflexivity|].
  destruct (canvas_size c1) as [[wd ht]|]; [|reflexivity].
  destruct (g _ c1 _) as [[o c2] l3]. reflexivity.
Qed.

(** X19. Once [patchCanvasMethods] has run, [fillRect], [drawImage] and
    [clearRect] never throw, whatever the underlying methods do and however
    often the patch was applied. *)
Theorem patched_canvas_methods_never_throw :
  forall (n : nat) (args : list Canvas.Arg) (c : Ctx) (log : Console),
    0 < n ->
    outcome_of (fillRect_after n args c log) = Canvas.Returned /\
    outcome_of (drawImage_after n args c log) = Canvas.Returned /\
    outcome_of (clearRect_after n args c log) = Canvas.Returned.
Proof.
  intros n args c log Hn. destruct n as [|k]; [lia|].
  split; [|split].
  - apply patchedFillRect_returns.
  - apply patchedDrawImage_returns.
  - apply patchedClearRect_returns.
Qed.

Lemma patchedClearRect_passes (f : Canvas.Method Ctx) args c log c1 l1 :
  f args c log = (Canvas.Returned, c1, l1) ->
  Canvas.patchedClearRect Ctx f args c log = (Canvas.Returned, c1, l1).
Proof. intros H. unfold Canvas.patchedClearRect. rewrite H. reflexivity. Qed.

Lemma patchedFillRect_passes (f g : Canvas.Method Ctx) args c log c1 l1 :
  f args c log = (Canvas.Returned, c1, l1) ->
  Canvas.patchedFillRect Ctx canvas_size f g args c log
  = (Canvas.Returned, c1, l1).
Proof. intros H. unfold Canvas.patchedFillRect. rewrite H. reflexivity. Qed.

Lemma returned_triple (r : Canvas.Outcome * Ctx * Console) :
  outcome_of r = Canvas.Returned ->
  r = (Canvas.Returned, snd (fst r), snd r).
Proof.
  destruct r as [[o c] l]. unfold Canvas.outcome_of. simpl. intros ->.
  reflexivity.
Qed.

(** Further layers add nothing to the first one. *)
Lemma clearRect_one_layer (k : nat) args c log :
  clearRect_after (S k) args c log
  = Canvas.patchedClearRect Ctx originalClearRect args c log.
Proof.
  induction k as [|k IH]; [reflexivity|].
  change (clearRect_after (S (S k)))
    with (Canvas.patchedClearRect Ctx (clearRect_after (S k))).
  rewrite (returned_triple _ (patchedClearRect_returns originalClearRect
                                args c log)) in IH |- *.
  apply patchedClearRect_passes. exact IH.
Qed.

Lemma fillRect_one_layer (g : Canvas.Method Ctx) (k : nat) args c log :
  fillRect_layers (S k) g args c log
  = Canvas.patchedFillRect Ctx canvas_size originalFillRect g args c log.
Proof.
  induction k as [|k IH]; [reflexivity|].
  change (fillRect_layers (S (S k)) g)
    with (Canvas.patchedFillRect Ctx canvas_size (fillRect_layers (S k) g) g).
  rewrite (returned_triple _ (patchedFillRect_returns originalFillRect g
                                args c log)) in IH |- *.
  apply patchedFillRect_passes. exact IH.
Qed.

(** X20. However often [patchCanvasMethods] was applied, a [fillRect] that
    fails is reported once and recovered from once: one warning is
    written, then the underlying [clearRect] is called once on the whole
    canvas, and a failure of that call adds one more warning and is
    swallowed; when the size of the canvas cannot be read no clearing is
    tried.  A [fillRect] that works passes through unchanged. *)
Theorem failing_fillRect_reported_and_recovered_once :
  forall (n : nat) (args : list Canvas.Arg) (c c1 : Ctx) (log log1 : Console)
         (error : string),
    0 < n ->
    (originalFillRect args c log = (Canvas.Returned, c1, log1) ->
     fillRect_after n args c log = (Canvas.Returned, c1, log1)) /\
    (originalFillRect args c log = (Canvas.Threw error, c1, log1) ->
     fillRect_after n args c log
     = let log2 :=
         log1 ++ [Canvas.warning "Canvas fillRect 錯誤，嘗試恢復:"] in
       match canvas_size c1 with
       | Some (width, height) =>
           let cleared :=
             originalClearRect
               [Canvas.Num 0; Canvas.Num 0; Canvas.Num width;
                Canvas.Num height] c1 log2 in
           (Canvas.Returned, snd (fst cleared),
            match outcome_of cleared with
            | Canvas.Returned => snd cleared
            | Canvas.Threw _ =>
                snd cleared ++ [Canvas.warning "Canvas clearRect 錯誤:"]
            end)
       | None => (Canvas.Returned, c1, log2)
       end).
Proof.
  intros n args c c1 log log1 error Hn. destruct n as [|k]; [lia|].
  unfold Canvas.fillRect_after. split; intros H.
  - rewrite fillRect_one_layer. apply patchedFillRect_passes. exact H.
  - rewrite fillRect_one_layer. unfold Canvas.patchedFillRect. rewrite H.
    destruct (canvas_size c1) as [[wd ht]|]; [|reflexivity].
    rewrite clearRect_one_layer. unfold Canvas.patchedClearRect.
    destruct (originalClearRect _ c1 _) as [[[|e] c2] l3]; reflexivity.
Qed.

End CanvasFacts.

Lemma patched_canvas_methods_never_throw_witness :
  Canvas.outcome_of nat
    (Canvas.fillRect_after nat Samples.sized Samples.failing_call
       Samples.failing_call 2 [Canvas.Num 0; Canvas.Num 0] 0 [])
  = Canvas.Returned.
Proof.
  assert (H : 0 < 2) by lia.
  apply (patched_canvas_methods_never_throw nat Samples.sized
           Samples.failing_call Samples.failing_call Samples.failing_call
           2 [Canvas.Num 0; Canvas.Num 0] 0 [] H).
Defined.

Lemma failing_fillRect_reported_and_recovered_once_witness :
  Canvas.fillRect_after nat Samples.sized Samples.failing_call
    Samples.working_call 3 [Canvas.Num 0; Canvas.Num 0] 0 []
  = (Canvas.Returned, 1,
     [Canvas.warning "Canvas fillRect 錯誤，嘗試恢復:"]).
Proof.
  assert (H : 0 < 3) by lia.
  destruct (failing_fillRect_reported_and_recovered_once nat Samples.sized
              Samples.failing_call Samples.working_call 3
              [Canvas.Num 0; Canvas.Num 0] 0 0 [] [] "InvalidStateError" H)
    as (_ & Hfail).
  rewrite (Hfail eq_refl). reflexivity.
Defined.

End PatchExtra.

(** ** The entry point *)

Module GameUtilsExtra.
Import GameUtils.

Lemma contains_In (c : string) (cl : list string) :
  Accessibility.contains c cl = true <-> In c cl.
Proof.
  unfold Accessibility.contains. rewrite existsb_exists. split.
  - intros (x & Hx & E). apply String.eqb_eq in E. subst. exact Hx.
  - intros H. exists c. split; [exact H | apply String.eqb_refl].
Qed.

(** No element leaves the sweeps of [init] as a button without the marker
    class. *)
Lemma swept_marked (e : Accessibility.Element) :
  Accessibility.lacks_marker (Accessibility.swept e) = false.
Proof.
  unfold Accessibility.lacks_marker.
  destruct (AccessibilityExtra.swept_extends e) as (Htag & _ & _ & _ & _).
  unfold Accessibility.is_tag at 1. rewrite Htag.
  fold (Accessibility.is_tag "button" e).
  destruct (Accessibility.is_tag "button" e) eqn:E; [|reflexivity].
  simpl andb. apply negb_false_iff. apply contains_In.
  unfold Accessibility.swept. rewrite E.
  set (e1 := Accessibility.annotated e).
  set (e2 := if Accessibility.is_tag "img" e1
             then Accessibility.with_alt e1 else e1).
  assert (H1 : In "has-focus-style" (Accessibility.classList e1))
    by (apply contains_In; apply AccessibilityFacts.annotated_marked).
  assert (H2 : In "has-focus-style" (Accessibility.classList e2)).
  { unfold e2. destruct (Accessibility.is_tag "img" e1); [|exact H1].
    destruct (AccessibilityExtra.with_alt_extends e1) as (_ & _ & _ & Hc & _).
    apply Hc. exact H1. }
  destruct (Accessibility.is_game_container e2); [|exact H2].
  destruct (AccessibilityExtra.as_container_extends e2)
    as (_ & _ & _ & Hc & _).
  apply Hc. exact H2.
Qed.

Lemma no_unmarked_after_init (a : Accessibility.t)
    (d : Accessibility.Document) :
  Accessibility.initialized a = false ->
  filter Accessibility.lacks_marker
    (Accessibility.body (snd (Accessibility.init a d))) = [].
Proof.
  intros Ha. rewrite (AccessibilityExtra.init_body a d Ha), filter_app.
  simpl. rewrite app_nil_r.
  induction (Accessibility.body d) as [|e l IH]; [reflexivity|].
  simpl. rewrite swept_marked. exact IH.
Qed.

Lemma init_listeners (a : Accessibility.t) (d : Accessibility.Document) :
  Accessibility.initialized a = false ->
  Accessibility.keydownListeners (snd (Accessibility.init a d))
  = S (Accessibility.keydownListeners d) /\
  Accessibility.mediaListeners (snd (Accessibility.init a d))
  = S (Accessibility.mediaListeners d).
Proof.
  intros Ha. unfold Accessibility.init. rewrite Ha.
  cbn [snd Accessibility.keydownListeners Accessibility.mediaListeners].
  set (d3 := Accessibility.addKeyboardNavigation
               (Accessibility.addImageAccessibility
                  (Accessibility.addButtonAccessibility d))).
  assert (Hk : Accessibility.keydownListeners d3
               = S (Accessibility.keydownListeners d)).
  { unfold d3. rewrite (AccessibilityExtra.addButtonAccessibility_eq d).
    reflexivity. }
  assert (Hm : Accessibility.mediaListeners d3 = Accessibility.mediaListeners d).
  { unfold d3. rewrite (AccessibilityExtra.addButtonAccessibility_eq d).
    reflexivity. }
  clearbody d3. unfold Accessibility.detectHighContrastMode.
  destruct (Accessibility.forcedColors d3); simpl; rewrite Hk, Hm; auto.
Qed.

(** X21. The [initialized] guards belong to the instances, not to the
    page.  After [initAll] all three instances are initialised; a second
    [initAll] on the same page builds new instances and repeats every
    page-level effect: two more window listeners, one more wrapper around
    each canvas method and around [requestAnimationFrame], one more FPS
    loop (and memory interval), one more help overlay with its keydown
    listener, one more forced-colors listener.  Only the focus style rule
    is not injected again, because every button already carries the
    marker class. *)
Theorem initAll_twice_repeats_page_effects :
  forall (name1 name2 : option string) (c1 s1 c2 s2 : Q) (hasMemory : bool)
         (p : Page),
    let r1 := initAll name1 c1 s1 hasMemory p in
    let r2 := initAll name2 c2 s2 hasMemory (snd r1) in
    (ErrorHandler.initialized (errorHandler (fst r1)) = true /\
     Accessibility.initialized (accessibility (fst r1)) = true /\
     PerformanceMonitor.initialized (performanceMonitor (fst r1)) = true) /\
    ErrorHandler.listeners (window (snd r2))
    = ErrorHandler.listeners (window p)
      ++ ["error"; "unhandledrejection"; "error"; "unhandledrejection"] /\
    ErrorHandler.rafWrappers (window (snd r2))
    = 2 + ErrorHandler.rafWrappers (window p) /\
    ErrorHandler.fillRectWrappers (window (snd r2))
    = 2 + ErrorHandler.fillRectWrappers (window p) /\
    ErrorHandler.drawImageWrappers (window (snd r2))
    = 2 + ErrorHandler.drawImageWrappers (window p) /\
    ErrorHandler.clearRectWrappers (window (snd r2))
    = 2 + ErrorHandler.clearRectWrappers (window p) /\
    PerformanceMonitor.rafQueue (scheduler (snd r2))
    = 2 + PerformanceMonitor.rafQueue (scheduler p) /\
    PerformanceMonitor.intervals (scheduler (snd r2))
    = (if hasMemory then 2 else 0) + PerformanceMonitor.intervals (scheduler p) /\
    length (Accessibility.body (document (snd r2)))
    = 2 + length (Accessibility.body (document p)) /\
    Accessibility.keydownListeners (document (snd r2))
    = 2 + Accessibility.keydownListeners (document p) /\
    Accessibility.mediaListeners (document (snd r2))
    = 2 + Accessibility.mediaListeners (document p) /\
    Accessibility.injected_focus_styles (document (snd r1)) (document (snd r2))
    = 0.
Proof.
  intros name1 name2 c1 s1 c2 s2 hasMemory p r1 r2.
  assert (Hdoc1 : document (snd r1)
                  = snd (Accessibility.init Accessibility.new (document p)))
    by reflexivity.
  assert (Hdoc2 : document (snd r2)
                  = snd (Accessibility.init Accessibility.new
                           (document (snd r1)))) by reflexivity.
  split; [repeat split|].
  split; [simpl; rewrite <- !app_assoc; reflexivity|].
  split; [reflexivity|]. split; [reflexivity|].
  split; [reflexivity|]. split; [reflexivity|].
  split; [destruct hasMemory; reflexivity|].
  split; [destruct hasMemory; reflexivity|].
  split.
  { rewrite Hdoc2,
      (AccessibilityExtra.init_body Accessibility.new _ eq_refl), Hdoc1,
      (AccessibilityExtra.init_body Accessibility.new _ eq_refl).
    repeat (rewrite length_app || rewrite length_map). simpl. lia. }
  destruct (init_listeners Accessibility.new (document p) eq_refl)
    as (Hk1 & Hm1).
  destruct (init_listeners Accessibility.new (document (snd r1)) eq_refl)
    as (Hk2 & Hm2).
  split; [rewrite Hdoc2, Hk2, Hdoc1, Hk1; reflexivity|].
  split; [rewrite Hdoc2, Hm2, Hdoc1, Hm1; reflexivity|].
  unfold Accessibility.injected_focus_styles, Accessibility.count_focus_styles.
  rewrite Hdoc2.
  rewrite (AccessibilityFacts.init_head Accessibility.new (document (snd r1))
             eq_refl).
  rewrite Hdoc1, (no_unmarked_after_init Accessibility.new (document p) eq_refl).
  simpl repeat. rewrite !filter_app, !length_app.
  destruct (Accessibility.forcedColors
              (snd (Accessibility.init Accessibility.new (document p))));
    simpl; lia.
Qed.

End GameUtilsExtra.
